(** * The Argo-Tunnel ingress controller: bootstrap and reconciliation engine

    The first part embeds [cmd/argot/main.go]: the verbosity bridge
    [logruslevel], the client selection [kubeclient], the origin-secret loader
    [originsecrets] and the [couple] branch of [main].  External calls
    (flag, net, client-go, the run group) are oracles of an environment and
    every call is recorded in a trace; [netutil.LimitListener] panics on a
    negative limit, and the standard logger writes an entry only at a level
    it is enabled for.

    The second part models the engine behind [internal/argotunnel] and
    [internal/cloudflare] (work queue, secret resolver, tag builder, per-key
    state machine, repair scheduler). *)

From stdpp Require Import base strings list gmap pretty.
From Stdlib Require Import ZArith Lia Sorted Ascii QArith Qminmax Qpower Lqa.

Local Open Scope string_scope.
Local Open Scope list_scope.
Local Open Scope Z_scope.

(** ** Go values *)

(** A Go [(T, error)] pair: either the value or the error's message. *)
Inductive result (A : Type) : Type :=
  | Ok (a : A)
  | Err (e : string).
Arguments Ok {A} a.
Arguments Err {A} e.

Definition is_ok {A} (r : result A) : bool :=
  match r with Ok _ => true | Err _ => false end.

(** ** logrus levels *)

(** [logrus.Level], in the order of the library's constants. *)
Inductive Level : Type :=
  | PanicLevel | FatalLevel | ErrorLevel | WarnLevel
  | InfoLevel | DebugLevel | TraceLevel.

(** [logrus.AllLevels] as exported by logrus v1.6.0, the version go.mod pins. *)
Definition AllLevels : list Level :=
  [PanicLevel; FatalLevel; ErrorLevel; WarnLevel; InfoLevel; DebugLevel; TraceLevel].

(** [func logruslevel(v int) (l logrus.Level)].  The slice access
    [logrus.AllLevels[v]] panics out of range: [None] stands for that panic. *)
Definition logruslevel (v : Z) : option Level :=
  if (0 <=? v) && (v <=? 5) then AllLevels !! Z.to_nat v
  else if 5 <? v then Some DebugLevel
  else Some PanicLevel.

(** ** Values crossing the bootstrap boundary *)

(** [k8s.ObjMixin]: the [<namespace>/<name>] reference parsed from a flag;
    [main] reads its [Name] and [Namespace] fields. *)
Record ObjRef : Type := mkObjRef { Namespace : string; Name : string }.

Global Instance ObjRef_eq_dec : EqDecision ObjRef.
Proof. solve_decision. Defined.

(** Modelled from the spec: a host-matching rule of the origin secret
    configuration, "exact host or wildcard".  [WildcardHost s] stands for the
    pattern ["*" ++ s], for instance [WildcardHost ".example.com"]. *)
Inductive HostRule : Type :=
  | ExactHost (h : string)
  | WildcardHost (suffix : string).

(** Modelled from the spec: a group of the origin secret configuration,
    "each group naming one or more host-matching rules and an origin-secret
    reference". *)
Record SecretGroup : Type := mkSecretGroup {
  group_hosts : list HostRule;
  group_secret : ObjRef
}.

(** Modelled from the spec: [cloudflare.OriginSecrets], "an ordered list of
    groups".  The Go zero value [OriginSecrets{}] has no group. *)
Record OriginSecrets : Type := mkOriginSecrets { Groups : list SecretGroup }.

Definition OriginSecrets_zero : OriginSecrets := {| Groups := [] |}.

(** Opaque handles returned by the libraries. *)
Definition Listener : Type := nat.
Definition RestConfig : Type := nat.
Definition Clientset : Type := nat.

(** A Go [float64], kept as its 64-bit pattern: [main] only passes it on. *)
Definition Float64 : Type := Z.

(** The parsed command line of the [couple] command, one field per flag. *)
Record Flags : Type := mkFlags {
  verbose : Z;
  incluster : bool;
  kubeconfig : string;
  ingressclass : string;
  originsecret : ObjRef;
  originconfig : string;
  debugaddr : string;
  debugenable : bool;
  metricsaddr : string;
  metricsenable : bool;
  connlimit : Z;
  repairdelay : Z;
  repairjitter : Float64;
  repairsteps : Z;
  resyncperiod : Z;
  taglimit : Z;
  transportlogenable : bool;
  watchNamespace : string;
  workers : Z
}.

(** What [kingpin.MustParse] selected. *)
Inductive Command : Type := CmdVersion | CmdCouple | CmdOther.

Inductive Logger : Type := StandardLogger | TransportLogger.

(** The functional options handed to [argotunnel.NewController]. *)
Record ControllerOptions : Type := mkControllerOptions {
  opt_client : Clientset;
  opt_IngressClass : string;
  opt_SecretGroups : OriginSecrets;
  opt_Secret : ObjRef;
  opt_ResyncPeriod : Z;
  opt_WatchNamespace : string;
  opt_Workers : Z
}.

(** The actors added to the [run.Group]. *)
Inductive Actor : Type :=
  | SignalActor
  | DebugServer (l : Listener) (limit : Z)
  | MetricsServer (l : Listener) (limit : Z)
  | ControllerActor (o : ControllerOptions).

(** ** Traces *)

(** One observable step of the process.  A call into a library records whether
    it returned a nil error; [flag.Parse] records the status it ends the
    process with, if it does. *)
Inductive Event : Type :=
  | EvPrintf (s : string)
  | EvFlagSet (name value : string)
  | EvFlagParse (status : option Z)
  | EvSetLevel (lg : Logger) (l : Level)
  | EvSignalNotify
  | EvListen (network address : string) (ok : bool)
  | EvBuildConfigFromFlags (masterUrl path : string) (ok : bool)
  | EvInClusterConfig (ok : bool)
  | EvNewForConfig (cfg : RestConfig) (ok : bool)
  | EvParseOriginSecretsFile (path : string) (ok : bool)
  | EvDebugf (msg : string)
  | EvFatalf (msg : string)
  | EvEnableMetrics (period : Z)
  | EvSetRepairBackoff (delay : Z) (jitter : Float64) (steps : Z)
  | EvSetTagLimit (limit : Z)
  | EvSetVersion (v : string)
  | EvNewController (o : ControllerOptions)
  | EvRun (actors : list Actor).

(** The libraries and the operating system.  Every oracle sees the trace so
    far, so an answer may depend on what the process did before.
    [flag_Parse] is [flag.Parse] on the command line of the process: the
    standard flag set exits on error, so the call either returns ([None]) or
    ends the process with a status (2 for an argument it does not know, such
    as a [--v] written before the command). *)
Record Env : Type := mkEnv {
  flag_Parse : list Event → option Z;
  net_Listen : list Event → string → string → result Listener;
  clientcmd_BuildConfigFromFlags : list Event → string → string → result RestConfig;
  rest_InClusterConfig : list Event → result RestConfig;
  kubernetes_NewForConfig : list Event → RestConfig → result Clientset;
  cloudflare_ParseOriginSecretsFile : list Event → string → result OriginSecrets;
  run_Group_Run : list Event → list Actor → option string
}.

(** How a computation ends: it returns, the process exits with a status, or
    the goroutine panics. *)
Inductive Outcome (A : Type) : Type :=
  | Ret (a : A)
  | Exit (code : Z)
  | Panic.
Arguments Ret {A} a.
Arguments Exit {A} code.
Arguments Panic {A}.

(** A process step: from the environment and the trace so far to the extended
    trace and the outcome. *)
Definition Proc (A : Type) : Type := Env → list Event → list Event * Outcome A.

Global Instance Proc_ret : MRet Proc := λ A a _ h, (h, Ret a).

Global Instance Proc_bind : MBind Proc := λ A B k m env h,
  match m env h with
  | (h', Ret a) => k a env h'
  | (h', Exit c) => (h', Exit c)
  | (h', Panic) => (h', Panic)
  end.

Definition emit (e : Event) : Proc () := λ _ h, (h ++ [e], Ret ()).

(** [os.Exit]. *)
Definition os_Exit {A} (code : Z) : Proc A := λ _ h, (h, Exit code).

(** [log.Fatalf]: logrus hands the entry to the logger, which writes it when
    the level set before allows it, and then calls [Exit(1)].  The event
    records the call and its message. *)
Definition log_Fatalf (msg : string) : Proc () := λ _ h, (h ++ [EvFatalf msg], Exit 1).

(** A call into a library: ask the oracle, record the call and its success. *)
Definition call {A} (f : Env → list Event → result A) (ev : bool → Event)
  : Proc (result A) :=
  λ env h, let r := f env h in (h ++ [ev (is_ok r)], Ret r).

(** [flag.Parse]. *)
Definition flag_Parse_call : Proc () :=
  λ env h,
    match flag_Parse env h with
    | None => (h ++ [EvFlagParse None], Ret ())
    | Some status => (h ++ [EvFlagParse (Some status)], Exit status)
    end.

(** [netutil.LimitListener(l, n)]: it makes a channel of capacity [n], which
    panics when [n] is negative. *)
Definition netutil_LimitListener (l : Listener) (n : Z) : Proc Listener :=
  λ _ h, if n <? 0 then (h, Panic) else (h, Ret l).

(** [strconv.Itoa]. *)
Definition strconv_Itoa (n : Z) : string := pretty n.
Global Arguments strconv_Itoa : simpl never.

(** The line feed that ends some of the messages. *)
Definition LF : string := String "010"%char "".

(** An indexing that may panic. *)
Definition or_panic {A} (o : option A) : Proc A :=
  λ _ h, match o with Some a => (h, Ret a) | None => (h, Panic) end.

(** ** [kubeclient] *)

(** [func kubeclient(kubeconfigpath string, incluster bool)], returning the
    clientset or the error. *)
Definition kubeclient (kubeconfigpath : string) (incluster : bool)
  : Proc (result Clientset) :=
  kubeconfig ←
    (if negb (String.eqb kubeconfigpath "") && negb incluster
     then call (λ env h, clientcmd_BuildConfigFromFlags env h "" kubeconfigpath)
               (EvBuildConfigFromFlags "" kubeconfigpath)
     else call rest_InClusterConfig EvInClusterConfig);
  match kubeconfig with
  | Err err => mret (Err err)
  | Ok cfg => call (λ env h, kubernetes_NewForConfig env h cfg) (EvNewForConfig cfg)
  end.

(** ** [originsecrets] *)

(** [func originsecrets(originsecretspath string)], returning the origin
    secrets or the error. *)
Definition originsecrets (originsecretspath : string) : Proc (result OriginSecrets) :=
  if 0 <? Z.of_nat (String.length originsecretspath)
  then call (λ env h, cloudflare_ParseOriginSecretsFile env h originsecretspath)
            (EvParseOriginSecretsFile originsecretspath)
  else mret (Ok OriginSecrets_zero).

(** ** [main] *)

(** The block of [main] that opens the profiling listener. *)
Definition debug_block (f : Flags) (g : list Actor) : Proc (list Actor) :=
  if debugenable f then
    r ← call (λ env h, net_Listen env h "tcp" (debugaddr f)) (EvListen "tcp" (debugaddr f));
    match r with
    | Err err => log_Fatalf ("cannot open debug listener: " +:+ err);; os_Exit 1
    | Ok debugListener =>
        debugListener ← netutil_LimitListener debugListener (connlimit f);
        emit (EvDebugf ("debug listener on address: " +:+ debugaddr f));;
        mret (g ++ [DebugServer debugListener (connlimit f)])
    end
  else mret g.

(** The block of [main] that opens the metrics listener. *)
Definition metrics_block (f : Flags) (g : list Actor) : Proc (list Actor) :=
  if metricsenable f then
    r ← call (λ env h, net_Listen env h "tcp" (metricsaddr f)) (EvListen "tcp" (metricsaddr f));
    match r with
    | Err err => log_Fatalf ("cannot open metrics listener: " +:+ err);; os_Exit 1
    | Ok metricsListener =>
        metricsListener ← netutil_LimitListener metricsListener (connlimit f);
        emit (EvDebugf ("metrics listener on address: " +:+ metricsaddr f));;
        mret (g ++ [MetricsServer metricsListener (connlimit f)])
    end
  else mret g.

(** The block of [main] that builds the controller. *)
Definition controller_block (version : string) (f : Flags) (g : list Actor)
  : Proc (list Actor) :=
  r ← kubeclient (kubeconfig f) (incluster f);
  match r with
  | Err err => log_Fatalf ("failed to create kubernetes client: " +:+ err);; os_Exit 1
  | Ok kclient =>
      r' ← originsecrets (originconfig f);
      match r' with
      | Err err => log_Fatalf ("failed to parse origin secrets: " +:+ err);; os_Exit 1
      | Ok secretgroups =>
          emit (EvEnableMetrics 5000000000);;
          emit (EvSetRepairBackoff (repairdelay f) (repairjitter f) (repairsteps f));;
          emit (EvSetTagLimit (taglimit f));;
          emit (EvSetVersion version);;
          let argo := {| opt_client := kclient;
                         opt_IngressClass := ingressclass f;
                         opt_SecretGroups := secretgroups;
                         opt_Secret := originsecret f;
                         opt_ResyncPeriod := resyncperiod f;
                         opt_WatchNamespace := watchNamespace f;
                         opt_Workers := workers f |} in
          emit (EvNewController argo);;
          mret (g ++ [ControllerActor argo])
      end
  end.

(** The [couple] case of [main]'s switch. *)
Definition main_couple (version : string) (f : Flags) : Proc () :=
  emit (EvFlagSet "logtostderr" "true");;
  emit (EvFlagSet "v" (strconv_Itoa (verbose f)));;
  flag_Parse_call;;
  l ← or_panic (logruslevel (verbose f));
  emit (EvSetLevel StandardLogger l);;
  (if transportlogenable f
   then l' ← or_panic (logruslevel (verbose f)); emit (EvSetLevel TransportLogger l')
   else mret ());;
  emit EvSignalNotify;;
  g ← debug_block f [SignalActor];
  g ← metrics_block f g;
  g ← controller_block version f g;
  r ← (λ env h, (h ++ [EvRun g], Ret (run_Group_Run env h g)));
  match r with
  | Some err => log_Fatalf ("received fatal error, err=" +:+ err +:+ LF);; os_Exit 1
  | None => mret ()
  end.

(** [func main()], after [kingpin] has parsed the arguments. *)
Definition main (name version GOOS GOARCH : string) (cmd : Command) (f : Flags)
  : Proc () :=
  match cmd with
  | CmdVersion =>
      emit (EvPrintf (name +:+ " " +:+ version +:+ " " +:+ GOOS +:+ "/" +:+ GOARCH
                        +:+ LF))
  | CmdCouple => main_couple version f
  | CmdOther => mret ()
  end.

(** Run a process from the empty trace. *)
Definition run {A} (p : Proc A) (env : Env) : list Event * Outcome A := p env [].

(** ** Reading a trace *)

(** The calls [main] makes while it initialises: binding a listener, building
    the Kubernetes client, reading the origin secret configuration. *)
Definition startup_call (e : Event) : bool :=
  match e with
  | EvListen _ _ _ | EvBuildConfigFromFlags _ _ _ | EvInClusterConfig _
  | EvNewForConfig _ _ | EvParseOriginSecretsFile _ _ => true
  | _ => false
  end.

(** Such a call that returned an error. *)
Definition startup_failure (e : Event) : bool :=
  match e with
  | EvListen _ _ ok | EvBuildConfigFromFlags _ _ ok | EvInClusterConfig ok
  | EvNewForConfig _ ok | EvParseOriginSecretsFile _ ok => negb ok
  | _ => false
  end.

Definition is_run (e : Event) : bool :=
  match e with EvRun _ => true | _ => false end.

Definition is_fatal (e : Event) : bool :=
  match e with EvFatalf _ => true | _ => false end.

(** The numeric value of a [logrus.Level]: [PanicLevel] is [iota], that is 0,
    and the constants follow in the order of [AllLevels]. *)
Definition Level_value (l : Level) : Z :=
  match l with
  | PanicLevel => 0 | FatalLevel => 1 | ErrorLevel => 2 | WarnLevel => 3
  | InfoLevel => 4 | DebugLevel => 5 | TraceLevel => 6
  end.

(** [logger.IsLevelEnabled] of logrus v1.6.0: an entry of [level] is written
    when the level of the logger is at least [level]. *)
Definition IsLevelEnabled (current level : Level) : bool :=
  Level_value level <=? Level_value current.

(** The level of the standard logger after a trace: the last one set, and
    [InfoLevel], the level logrus starts with, before any is set. *)
Fixpoint standard_level_from (current : Level) (h : list Event) : Level :=
  match h with
  | [] => current
  | EvSetLevel StandardLogger l :: h' => standard_level_from l h'
  | _ :: h' => standard_level_from current h'
  end.

Definition standard_level (h : list Event) : Level := standard_level_from InfoLevel h.

(** The messages the standard logger writes to [os.Stderr] for the calls of a
    trace, the logger being at the level [current] when the trace starts:
    [Debugf] makes an entry of [DebugLevel] and [Fatalf] one of [FatalLevel],
    and an entry is written only when [IsLevelEnabled] allows it.  What the
    actors log while the run group runs is part of [EvRun] and not listed. *)
Fixpoint written_from (current : Level) (h : list Event) : list string :=
  match h with
  | [] => []
  | EvSetLevel StandardLogger l :: h' => written_from l h'
  | EvDebugf msg :: h' =>
      (if IsLevelEnabled current DebugLevel then [msg] else [])
        ++ written_from current h'
  | EvFatalf msg :: h' =>
      (if IsLevelEnabled current FatalLevel then [msg] else [])
        ++ written_from current h'
  | _ :: h' => written_from current h'
  end.

Definition written (h : list Event) : list string := written_from InfoLevel h.

Definition is_listen (e : Event) : bool :=
  match e with EvListen _ _ _ => true | _ => false end.

(** [reported f env pre e msg]: after the trace [pre] the call [e] returned an
    error, and [msg] is the message [main] hands to [log.Fatalf] for it: the
    label of the statement that failed, followed by that error.  The
    profiling listener is the first one bound; the metrics listener comes
    after it when both are enabled. *)
Inductive reported (f : Flags) (env : Env) (pre : list Event) : Event → string → Prop :=
  | reported_debug err :
      debugenable f = true → forallb (λ e, negb (is_listen e)) pre = true →
      net_Listen env pre "tcp" (debugaddr f) = Err err →
      reported f env pre (EvListen "tcp" (debugaddr f) false)
               ("cannot open debug listener: " +:+ err)
  | reported_metrics err :
      metricsenable f = true →
      (debugenable f = true → EvListen "tcp" (debugaddr f) true ∈ pre) →
      net_Listen env pre "tcp" (metricsaddr f) = Err err →
      reported f env pre (EvListen "tcp" (metricsaddr f) false)
               ("cannot open metrics listener: " +:+ err)
  | reported_kubeconfig err :
      clientcmd_BuildConfigFromFlags env pre "" (kubeconfig f) = Err err →
      reported f env pre (EvBuildConfigFromFlags "" (kubeconfig f) false)
               ("failed to create kubernetes client: " +:+ err)
  | reported_incluster err :
      rest_InClusterConfig env pre = Err err →
      reported f env pre (EvInClusterConfig false)
               ("failed to create kubernetes client: " +:+ err)
  | reported_clientset cfg err :
      kubernetes_NewForConfig env pre cfg = Err err →
      reported f env pre (EvNewForConfig cfg false)
               ("failed to create kubernetes client: " +:+ err)
  | reported_secrets err :
      cloudflare_ParseOriginSecretsFile env pre (originconfig f) = Err err →
      reported f env pre (EvParseOriginSecretsFile (originconfig f) false)
               ("failed to parse origin secrets: " +:+ err).

(** An event of an initialisation that goes well. *)
Definition quiet (e : Event) : bool :=
  negb (is_run e) && negb (startup_failure e) && negb (is_fatal e).

(** The ways the [couple] command unfolds: [flag.Parse] ends the process;
    [flag.Parse] returns and then [netutil.LimitListener] panics on a negative
    limit, or a startup call fails and the process exits, or the run group
    ends without an error, or the run group ends with one. *)
Inductive shape (f : Flags) (env : Env) (tr : list Event) (out : Outcome ()) : Prop :=
  | shape_flag_exit status :
      flag_Parse env [EvFlagSet "logtostderr" "true";
                      EvFlagSet "v" (strconv_Itoa (verbose f))] = Some status →
      tr = [EvFlagSet "logtostderr" "true"; EvFlagSet "v" (strconv_Itoa (verbose f));
            EvFlagParse (Some status)] →
      out = Exit status → shape f env tr out
  | shape_panic init a :
      forallb quiet init = true → EvFlagParse None ∈ init → connlimit f < 0 →
      tr = init ++ [EvListen "tcp" a true] → out = Panic → shape f env tr out
  | shape_failed init e msg :
      forallb quiet init = true → EvFlagParse None ∈ init →
      startup_failure e = true → reported f env init e msg →
      logruslevel (verbose f) = Some (standard_level init) →
      tr = init ++ [e; EvFatalf msg] → out = Exit 1 → shape f env tr out
  | shape_ran init g :
      forallb quiet init = true → EvFlagParse None ∈ init →
      run_Group_Run env init g = None →
      tr = init ++ [EvRun g] → out = Ret () → shape f env tr out
  | shape_ran_failed init g err :
      forallb quiet init = true → EvFlagParse None ∈ init →
      run_Group_Run env init g = Some err →
      logruslevel (verbose f) = Some (standard_level init) →
      tr = init ++ [EvRun g; EvFatalf ("received fatal error, err=" +:+ err +:+ LF)] →
      out = Exit 1 → shape f env tr out.

Definition reads_secret_file (e : Event) : bool :=
  match e with EvParseOriginSecretsFile _ _ => true | _ => false end.

Definition secret_fatal (e : Event) : bool :=
  match e with
  | EvFatalf msg => String.prefix "failed to parse origin secrets: " msg
  | _ => false
  end.

Definition with_groups (e : Event) : bool :=
  match e with
  | EvNewController o =>
      match Groups (opt_SecretGroups o) with [] => false | _ => true end
  | _ => false
  end.

(** An event of a run that never touches an origin secret configuration. *)
Definition without_secret_config (e : Event) : bool :=
  negb (reads_secret_file e) && negb (secret_fatal e) && negb (with_groups e).

(** * The engine *)

(** Modelled from the spec: [IngressKey], "[(namespace, name)] pair uniquely
    identifying a reconcilable unit"; the engine's own type
    ([internal/argotunnel]) is not among the sources. *)
Abbreviation IngressKey := (string * string)%type.

(** Modelled from the spec: [ControllerConfig], the process-wide settings the
    bootstrap hands over (section 3), with the flag types of [main.go]. *)
Record ControllerConfig : Type := mkControllerConfig {
  cfg_IngressClass : string;
  cfg_DefaultSecret : option ObjRef;
  cfg_SecretGroups : list SecretGroup;
  cfg_ResyncPeriod : Z;
  cfg_WatchNamespace : string;
  cfg_Workers : Z;
  cfg_RepairDelay : Z;
  cfg_RepairJitter : Float64;
  cfg_RepairSteps : nat;
  cfg_TagLimit : Z;
  cfg_Version : string
}.

(** Modelled from the spec: [argotunnel.SetTagLimit], which [main] calls and
    whose body is not among the sources, as a change of the tag limit of the
    configuration. *)
Definition SetTagLimit (limit : Z) (cfg : ControllerConfig) : ControllerConfig :=
  {| cfg_IngressClass := cfg_IngressClass cfg;
     cfg_DefaultSecret := cfg_DefaultSecret cfg;
     cfg_SecretGroups := cfg_SecretGroups cfg;
     cfg_ResyncPeriod := cfg_ResyncPeriod cfg;
     cfg_WatchNamespace := cfg_WatchNamespace cfg;
     cfg_Workers := cfg_Workers cfg;
     cfg_RepairDelay := cfg_RepairDelay cfg;
     cfg_RepairJitter := cfg_RepairJitter cfg;
     cfg_RepairSteps := cfg_RepairSteps cfg;
     cfg_TagLimit := limit;
     cfg_Version := cfg_Version cfg |}.

(** ** Work Queue (section 4.1) *)

Module WorkQueue.

(** Modelled from the spec: the queue of section 4.1, whose code lives in
    [internal/argotunnel].  [pending] holds the keys waiting for a worker in
    delivery order, [inflight] the keys handed out and not yet marked done,
    [again] the in-flight keys enqueued once more in the meantime. *)
Record t : Type := mk {
  pending : list IngressKey;
  inflight : list IngressKey;
  again : gset IngressKey;
  stopped : bool
}.

(** Modelled from the spec: the queue a controller starts with (its
    constructor is not among the sources). *)
Definition empty : t :=
  {| pending := []; inflight := []; again := ∅; stopped := false |}.

(** Modelled from the spec: "[Enqueue(key)] adds a key if not already
    pending or in-flight for that key"; an in-flight key is remembered for
    redelivery; after [Shutdown] no key is accepted. *)
Definition Enqueue (k : IngressKey) (q : t) : t :=
  if stopped q then q
  else if bool_decide (k ∈ pending q) then q
  else if bool_decide (k ∈ inflight q) then
    {| pending := pending q; inflight := inflight q;
       again := {[k]} ∪ again q; stopped := stopped q |}
  else
    {| pending := pending q ++ [k]; inflight := inflight q;
       again := again q; stopped := stopped q |}.

(** Modelled from the spec: "[Dequeue() -> key]"; [None] is the caller
    blocking on an empty queue, or the sentinel once the queue is stopped. *)
Definition Dequeue (q : t) : option IngressKey * t :=
  match pending q with
  | [] => (None, q)
  | k :: rest =>
      (Some k, {| pending := rest; inflight := k :: inflight q;
                  again := again q; stopped := stopped q |})
  end.

(** Modelled from the spec: "[MarkDone(key)] must be called after
    processing; if [Enqueue] was called again for that key while it was
    in-flight, it becomes eligible for redelivery immediately after
    [MarkDone]". *)
Definition MarkDone (k : IngressKey) (q : t) : t :=
  let rest := filter (λ k', k' ≠ k) (inflight q) in
  if bool_decide (k ∈ again q) then
    {| pending := pending q ++ [k]; inflight := rest;
       again := again q ∖ {[k]}; stopped := stopped q |}
  else
    {| pending := pending q; inflight := rest;
       again := again q; stopped := stopped q |}.

(** Modelled from the spec: "[Shutdown()] stops accepting new keys". *)
Definition Shutdown (q : t) : t :=
  {| pending := pending q; inflight := inflight q;
     again := again q; stopped := true |}.

(** The calls made on a queue by event handlers and workers. *)
Inductive op : Type :=
  | OpEnqueue (k : IngressKey)
  | OpDequeue
  | OpMarkDone (k : IngressKey)
  | OpShutdown.

Definition apply (o : op) (q : t) : t :=
  match o with
  | OpEnqueue k => Enqueue k q
  | OpDequeue => (Dequeue q).2
  | OpMarkDone k => MarkDone k q
  | OpShutdown => Shutdown q
  end.

(** The queue after a sequence of calls, oldest first. *)
Definition after (ops : list op) (q : t) : t := foldl (λ q o, apply o q) q ops.



End WorkQueue.

(** ** Secret Resolver (section 4.5) *)

Module SecretResolver.

(** Modelled from the spec: the wildcard rule of section 3 ("exact host or
    wildcard"), whose matcher is not among the sources: [host] ends with
    [suffix] and has at least one character before it, as
    ["billing.example.com"] does for ["*.example.com"]. *)
Definition has_suffix (suffix host : string) : bool :=
  let n := String.length suffix in
  let m := String.length host in
  (n <? m)%nat && String.eqb (String.substring (m - n) n host) suffix.

(** Modelled from the spec: an exact rule matches its own host only. *)
Definition rule_exact (host : string) (r : HostRule) : bool :=
  match r with
  | ExactHost h => String.eqb h host
  | WildcardHost _ => false
  end.

(** Modelled from the spec: a wildcard rule matches by suffix. *)
Definition rule_wildcard (host : string) (r : HostRule) : bool :=
  match r with
  | ExactHost _ => false
  | WildcardHost s => has_suffix s host
  end.

(** Modelled from the spec: a group matches when one of its rules does
    ("each group naming one or more host-matching rules"). *)
Definition matches_exact (host : string) (g : SecretGroup) : bool :=
  existsb (rule_exact host) (group_hosts g).

Definition matches_wildcard (host : string) (g : SecretGroup) : bool :=
  existsb (rule_wildcard host) (group_hosts g).

(** Modelled from the spec: one pass over the groups in configured order.
    The first group with an exact rule for the host ends the pass; the first
    group with a matching wildcard is kept in [wild] and used when the pass
    ends without an exact match. *)
Fixpoint scan (host : string) (groups : list SecretGroup) (wild : option ObjRef)
  : option ObjRef :=
  match groups with
  | [] => wild
  | g :: rest =>
      if matches_exact host g then Some (group_secret g)
      else scan host rest
             (match wild with
              | Some _ => wild
              | None => if matches_wildcard host g then Some (group_secret g) else None
              end)
  end.

(** Modelled from the spec: the "no origin secret" condition. *)
Inductive error : Type := NoOriginSecret.

(** Modelled from the spec: "if none match, use the configured default
    secret reference; if neither exists, resolution fails with a "no origin
    secret" condition". *)
Definition resolve (groups : list SecretGroup) (default : option ObjRef)
  (host : string) : error + ObjRef :=
  match scan host groups None with
  | Some s => inr s
  | None =>
      match default with
      | Some d => inr d
      | None => inl NoOriginSecret
      end
  end.

End SecretResolver.

(** ** Tag Builder (section 4.6) *)

(** Modelled from the spec: a key/value tag attached to a tunnel (section
    4.6); the tunnel types are not among the sources. *)
Record Tag : Type := mkTag { tag_key : string; tag_value : string }.

Global Instance Tag_eq_dec : EqDecision Tag.
Proof. solve_decision. Defined.

(** Modelled from the spec: the metadata of an Ingress the tags are built
    from, "namespace, name", with the labels of the Kubernetes object. *)
Record IngressMeta : Type := mkIngressMeta {
  meta_namespace : string;
  meta_name : string;
  meta_labels : list (string * string)
}.

Module TagBuilder.
Section policy.

(** Modelled from the spec: the tags that follow namespace and name
    ("derived/optional tags"), from
    the metadata and the controller version.  The spec leaves their choice
    and order open, so the builder is stated for any such policy. *)
Variable derived : IngressMeta → string → list Tag.

(** Modelled from the spec: the "namespace/name-derived tags", which come
    first. *)
Definition identity_tags (m : IngressMeta) : list Tag :=
  [ {| tag_key := "namespace"; tag_value := meta_namespace m |};
    {| tag_key := "name"; tag_value := meta_name m |} ].

(** Modelled from the spec: the "ordered sequence of key/value tags" before
    truncation. *)
Definition all_tags (version : string) (m : IngressMeta) : list Tag :=
  identity_tags m ++ derived m version.

(** Modelled from the spec: "Truncates deterministically to the configured
    limit, preserving the most significant tags first".  The limit is the Go
    [int] of the [--tag-limit] flag. *)
Definition build (limit : Z) (version : string) (m : IngressMeta) : list Tag :=
  take (Z.to_nat limit) (all_tags version m).

End policy.

(** One policy: the controller version, then the Ingress labels. *)
Definition version_then_labels (m : IngressMeta) (version : string) : list Tag :=
  {| tag_key := "version"; tag_value := version |}
    :: map (λ kv, {| tag_key := kv.1; tag_value := kv.2 |}) (meta_labels m).

End TagBuilder.

(** ** Desired state (section 3) *)

(** Modelled from the spec: a "backend target (service name + port)". *)
Record Backend : Type := mkBackend { backend_service : string; backend_port : Z }.

Global Instance Backend_eq_dec : EqDecision Backend.
Proof. solve_decision. Defined.

(** Modelled from the spec: one host of an Ingress and, when the Service and
    Endpoints lookups find it, its backend. *)
Record IngressRule : Type := mkIngressRule {
  rule_host : string;
  rule_backend : option Backend
}.

(** Modelled from the spec: the latest observed Ingress resource, with its
    ingress-class annotation. *)
Record Ingress : Type := mkIngress {
  ing_meta : IngressMeta;
  ing_class : string;
  ing_rules : list IngressRule
}.

(** Modelled from the spec: what one hostname of a [DesiredTunnelSpec]
    carries. *)
Record HostSpec : Type := mkHostSpec {
  hs_host : string;
  hs_backend : Backend;
  hs_secret : ObjRef
}.

Global Instance HostSpec_eq_dec : EqDecision HostSpec.
Proof. solve_decision. Defined.

(** Modelled from the spec: [DesiredTunnelSpec], "ordered sequence of
    hostnames, per-host backend target, origin-secret reference, tag set,
    ingress-class match flag". *)
Record DesiredTunnelSpec : Type := mkDesiredTunnelSpec {
  spec_hosts : list HostSpec;
  spec_tags : list Tag;
  spec_class_match : bool
}.

Global Instance DesiredTunnelSpec_eq_dec : EqDecision DesiredTunnelSpec.
Proof. solve_decision. Defined.

(** ** Reconciler and State Store (sections 4.3 and 4.4) *)

Module Reconciler.

(** Modelled from the spec: the "handle to the live tunnel connection", opaque
    to the engine. *)
Definition Handle : Type := nat.

(** Modelled from the spec: why an observed Ingress yields no spec ("missing
    backend, unresolved
    secret"). *)
Inductive invalid : Type :=
  | MissingBackend (host : string)
  | UnresolvedSecret (host : string).

(** Modelled from the spec: the states of [TunnelStatus]. *)
Inductive State : Type :=
  | Absent | Connecting | Running | Repairing | Terminating | Failed.

Global Instance State_eq_dec : EqDecision State.
Proof. solve_decision. Defined.

(** Modelled from the spec: [RepairAttempt], "[(count, nextEligibleTime,
    currentDelay)]", times and delays in nanoseconds. *)
Record RepairAttempt : Type := mkRepairAttempt {
  count : nat;
  nextEligibleTime : Z;
  currentDelay : Z
}.

(** Modelled from the spec: the repair record "reset to zero". *)
Definition no_attempt : RepairAttempt :=
  {| count := 0; nextEligibleTime := 0; currentDelay := 0 |}.

(** Modelled from the spec: [TunnelStatus], the state, the live handle, the spec the tunnel was
    opened with, and the repair record of the key. *)
Record TunnelStatus : Type := mkTunnelStatus {
  state : State;
  handle : option Handle;
  applied : option DesiredTunnelSpec;
  repair : RepairAttempt
}.

(** Modelled from the spec: the status of a key the State Store has no
    record of. *)
Definition absent : TunnelStatus :=
  {| state := Absent; handle := None; applied := None; repair := no_attempt |}.

(** Modelled from the spec: what a reconcile asks of the Tunnel Lifecycle
    Adapter ([Open], [Close]) and of the Repair
    Scheduler. *)
Inductive Action : Type :=
  | Open (s : DesiredTunnelSpec)
  | Close (h : Handle)
  | ScheduleRetry (delay : Z)
  | CancelRetry
  | LogInvalid (e : invalid).

(** Modelled from the spec: what drives a key, a reconcile pass with the
    latest resource ([None]
    when it is gone), the adapter's reports, and the end of a teardown.
    The Repair Scheduler's jittered delay comes with the failure report. *)
Inductive Stimulus : Type :=
  | Observe (ing : option Ingress)
  | Established (h : Handle)
  | ConnectionLost (now delay : Z)
  | Closed.

(** Modelled from the spec: closing is asked for a live handle only ("closing
    an already-closed or absent handle is a no-op"). *)
Definition close_of (h : option Handle) : list Action :=
  match h with Some h => [Close h] | None => [] end.

Section policy.

Variable derived : IngressMeta → string → list Tag.

(** Modelled from the spec: one host of the desired spec, invalid with a
    missing backend or an unresolved secret. *)
Definition host_spec (cfg : ControllerConfig) (r : IngressRule) : invalid + HostSpec :=
  match rule_backend r with
  | None => inl (MissingBackend (rule_host r))
  | Some b =>
      match SecretResolver.resolve (cfg_SecretGroups cfg) (cfg_DefaultSecret cfg)
              (rule_host r) with
      | inl _ => inl (UnresolvedSecret (rule_host r))
      | inr s => inr {| hs_host := rule_host r; hs_backend := b; hs_secret := s |}
      end
  end.

(** Modelled from the spec: the hosts in order; the first invalid one makes
    the whole spec invalid ("no partial tunnel is opened"). *)
Fixpoint host_specs (cfg : ControllerConfig) (rs : list IngressRule)
  : invalid + list HostSpec :=
  match rs with
  | [] => inr []
  | r :: rest =>
      match host_spec cfg r with
      | inl e => inl e
      | inr h =>
          match host_specs cfg rest with
          | inl e => inl e
          | inr hs => inr (h :: hs)
          end
      end
  end.

(** Modelled from the spec: step (3) of the reconcile algorithm, "build
    [DesiredTunnelSpec] via Secret Resolver + Tag Builder". *)
Definition build_spec (cfg : ControllerConfig) (ing : Ingress)
  : invalid + DesiredTunnelSpec :=
  match host_specs cfg (ing_rules ing) with
  | inl e => inl e
  | inr hs =>
      inr {| spec_hosts := hs;
             spec_tags := TagBuilder.build derived (cfg_TagLimit cfg)
                            (cfg_Version cfg) (ing_meta ing);
             spec_class_match := true |}
  end.

(** Modelled from the spec: step (2) of the reconcile algorithm; the resource
    as far as this controller is concerned is gone when it is
    absent or carries another ingress class. *)
Definition wanted (cfg : ControllerConfig) (ing : option Ingress) : option Ingress :=
  match ing with
  | Some i => if String.eqb (ing_class i) (cfg_IngressClass cfg) then Some i else None
  | None => None
  end.

(** Modelled from the spec: on delete or class mismatch "drive toward
    [Terminating]", which cancels the pending timer and closes the handle. *)
Definition terminate (st : TunnelStatus) : TunnelStatus * list Action :=
  match state st with
  | Absent | Terminating => (st, [])
  | _ =>
      ({| state := Terminating; handle := None;
          applied := applied st; repair := repair st |},
       CancelRetry :: close_of (handle st))
  end.

(** Modelled from the spec: open a tunnel for [s], replacing the live one if
    any: "tunnels are
    immutable once opened". *)
Definition replace (st : TunnelStatus) (next : State) (s : DesiredTunnelSpec)
  : TunnelStatus * list Action :=
  ({| state := next; handle := None; applied := Some s; repair := repair st |},
   close_of (handle st) ++ [Open s]).

(** Modelled from the spec: steps (4) and (5) of the reconcile algorithm on
    a valid spec; a [Failed] key is retried by a later pass, a [Repairing]
    one reopens its tunnel. *)
Definition converge (st : TunnelStatus) (s : DesiredTunnelSpec)
  : TunnelStatus * list Action :=
  match state st with
  | Absent | Failed => replace st Connecting s
  | Connecting | Running =>
      if decide (applied st = Some s) then (st, []) else replace st Connecting s
  | Repairing => replace st Repairing s
  | Terminating => (st, [])
  end.

(** Modelled from the spec: a failure report is one more repair attempt, or
    [Failed] when the count
    exceeds the configured step count. *)
Definition fail (cfg : ControllerConfig) (st : TunnelStatus) (now delay : Z)
  : TunnelStatus * list Action :=
  let attempt := {| count := S (count (repair st));
                    nextEligibleTime := now + delay;
                    currentDelay := delay |} in
  match state st with
  | Connecting | Running =>
      ({| state := Repairing; handle := handle st;
          applied := applied st; repair := attempt |}, [ScheduleRetry delay])
  | Repairing =>
      if (cfg_RepairSteps cfg <? S (count (repair st)))%nat
      then ({| state := Failed; handle := handle st; applied := applied st;
               repair := {| count := S (count (repair st));
                            nextEligibleTime := nextEligibleTime (repair st);
                            currentDelay := currentDelay (repair st) |} |}, [])
      else ({| state := Repairing; handle := handle st;
               applied := applied st; repair := attempt |}, [ScheduleRetry delay])
  | Absent | Terminating | Failed => (st, [])
  end.

(** Modelled from the spec: the per-key state machine of section 4.3, with
    the repair record kept as section 4.4 and the scenarios of section 8
    describe it. *)
Definition step (cfg : ControllerConfig) (st : TunnelStatus) (i : Stimulus)
  : TunnelStatus * list Action :=
  match i with
  | Observe ing =>
      match wanted cfg ing with
      | None => terminate st
      | Some ing =>
          match build_spec cfg ing with
          | inl e => (st, [LogInvalid e])
          | inr s => converge st s
          end
      end
  | Established h =>
      match state st with
      | Connecting | Repairing =>
          ({| state := Running; handle := Some h;
              applied := applied st; repair := no_attempt |}, [])
      | _ => (st, [])
      end
  | ConnectionLost now delay => fail cfg st now delay
  | Closed =>
      match state st with
      | Terminating => (absent, [])
      | _ => (st, [])
      end
  end.

(** Modelled from the spec: the State Store, one [TunnelStatus] per key, a
    missing key being
    [absent]. *)
Definition status_of (store : gmap IngressKey TunnelStatus) (k : IngressKey)
  : TunnelStatus :=
  default absent (store !! k).

(** Modelled from the spec: one reconcile operation on key [k]; the record is
    removed when the key is [Absent] again. *)
Definition reconcile (cfg : ControllerConfig) (k : IngressKey) (i : Stimulus)
  (store : gmap IngressKey TunnelStatus)
  : gmap IngressKey TunnelStatus * list Action :=
  let '(st, acts) := step cfg (status_of store k) i in
  (match state st with
   | Absent => delete k store
   | _ => <[k := st]> store
   end, acts).

(** The store after a sequence of operations on [k]. *)
Definition reconciles (cfg : ControllerConfig) (k : IngressKey) (inputs : list Stimulus)
  (store : gmap IngressKey TunnelStatus) : gmap IngressKey TunnelStatus :=
  foldl (λ s i, (reconcile cfg k i s).1) store inputs.

(** The statuses key [k] goes through under a sequence of operations, the
    current one first. *)
Fixpoint statuses (cfg : ControllerConfig) (k : IngressKey) (inputs : list Stimulus)
  (store : gmap IngressKey TunnelStatus) : list TunnelStatus :=
  match inputs with
  | [] => [status_of store k]
  | i :: rest => status_of store k :: statuses cfg k rest (reconcile cfg k i store).1
  end.

End policy.

(** Modelled from the spec: a key is unhealthy while its tunnel is being
    repaired or has been given
    up. *)
Definition unhealthy (st : TunnelStatus) : Prop :=
  state st = Repairing ∨ state st = Failed.

(** The requests that open a tunnel. *)
Definition is_open (a : Action) : bool :=
  match a with Open _ => true | _ => false end.

End Reconciler.

(** ** Repair Scheduler (section 4.4) *)

Module RepairScheduler.

(** Modelled from the spec: the delay before jitter of attempt [k]
    (1-indexed), "[min(baseDelay * 2^(k-1), baseDelay * 2^(steps-1))]"; the
    scheduler's code ([internal/argotunnel]) is not among the sources.  The
    base delay is the [time.Duration] of [--repair-delay] and the step count
    the [uint] of [--repair-steps]. *)
Definition capped (baseDelay : Q) (steps k : nat) : Q :=
  Qmin (baseDelay * 2 ^ (Z.of_nat k - 1)) (baseDelay * 2 ^ (Z.of_nat steps - 1))%Q.



(** Modelled from the spec: the bound of section 8,
    "[baseDelay * 2^(steps-1) * (1 + jitterFraction)]". *)
Definition ceiling (baseDelay jitterFraction : Q) (steps : nat) : Q :=
  (baseDelay * 2 ^ (Z.of_nat steps - 1) * (1 + jitterFraction))%Q.

End RepairScheduler.

(** ** Sample inputs *)

(** A command line of the [couple] command with both listeners enabled. *)
Definition sample_flags : Flags :=
  {| verbose := 3; incluster := false; kubeconfig := "/root/.kube/config";
     ingressclass := "argo-tunnel";
     originsecret := {| Namespace := "edge"; Name := "origin-cert" |};
     originconfig := "";
     debugaddr := "127.0.0.1:8081"; debugenable := true;
     metricsaddr := "0.0.0.0:8080"; metricsenable := true;
     connlimit := 512; repairdelay := 1000000000; repairjitter := 0;
     repairsteps := 3; resyncperiod := 300000000000; taglimit := 32;
     transportlogenable := false; watchNamespace := ""; workers := 2 |}.

(** An environment in which every call succeeds and the run group ends
    without an error. *)
Definition env_ok : Env :=
  {| flag_Parse := λ _, None;
     net_Listen := λ h _ _, Ok (length h);
     clientcmd_BuildConfigFromFlags := λ _ _ _, Ok 1%nat;
     rest_InClusterConfig := λ _, Ok 2%nat;
     kubernetes_NewForConfig := λ _ cfg, Ok cfg;
     cloudflare_ParseOriginSecretsFile := λ _ _, Ok OriginSecrets_zero;
     run_Group_Run := λ _ _, None |}.

(** An environment in which no port can be bound. *)
Definition env_port_taken : Env :=
  {| flag_Parse := λ _, None;
     net_Listen := λ _ _ _, Err "address already in use";
     clientcmd_BuildConfigFromFlags := λ _ _ _, Ok 1%nat;
     rest_InClusterConfig := λ _, Ok 2%nat;
     kubernetes_NewForConfig := λ _ cfg, Ok cfg;
     cloudflare_ParseOriginSecretsFile := λ _ _, Ok OriginSecrets_zero;
     run_Group_Run := λ _ _, None |}.

Definition secret_wildcard : ObjRef := {| Namespace := "edge"; Name := "wildcard-cert" |}.
Definition secret_billing : ObjRef := {| Namespace := "edge"; Name := "billing-cert" |}.

(** The table of the spec's scenario, the wildcard group listed first. *)
Definition sample_groups : list SecretGroup :=
  [ {| group_hosts := [WildcardHost ".example.com"]; group_secret := secret_wildcard |};
    {| group_hosts := [ExactHost "billing.example.com"]; group_secret := secret_billing |} ].

Definition sample_config : ControllerConfig :=
  {| cfg_IngressClass := "argo-tunnel"; cfg_DefaultSecret := None;
     cfg_SecretGroups := sample_groups; cfg_ResyncPeriod := 300000000000;
     cfg_WatchNamespace := ""; cfg_Workers := 2; cfg_RepairDelay := 1000000000;
     cfg_RepairJitter := 0; cfg_RepairSteps := 3; cfg_TagLimit := 2;
     cfg_Version := "v1" |}.

Definition sample_key : IngressKey := ("ns1", "app").

Definition sample_meta : IngressMeta :=
  {| meta_namespace := "ns1"; meta_name := "app"; meta_labels := [("team", "payments")] |}.

(** A running tunnel for [sample_key]. *)
Definition sample_running : Reconciler.TunnelStatus :=
  {| Reconciler.state := Reconciler.Running; Reconciler.handle := Some 7%nat;
     Reconciler.applied := None; Reconciler.repair := Reconciler.no_attempt |}.

(** ** More ways to read a trace *)

(** The anonymous function of [kubeclient]: the configuration source it asks,
    by its arguments. *)
Definition config_source (path : string) (inclust : bool) (env : Env) (h : list Event)
  : result RestConfig :=
  if negb (String.eqb path "") && negb inclust
  then clientcmd_BuildConfigFromFlags env h "" path
  else rest_InClusterConfig env h.

(** The first element of [l] that satisfies [P], with what comes before and
    after it. *)
Fixpoint split_on {A} (P : A → bool) (l : list A) : option (list A * A * list A) :=
  match l with
  | [] => None
  | a :: l' =>
      if P a then Some ([], a, l')
      else match split_on P l' with
           | Some (k1, y, k2) => Some (a :: k1, y, k2)
           | None => None
           end
  end.

(** The place of an event in the order of the statements of [main]: the
    verbosity mirror with its [flag] calls, the two loggers, the signal
    handler, the listeners, the configuration source, the clientset, the
    origin secrets, the four setters of the engine, the controller, the run
    group; a fatal message ends a run. *)
Definition phase (e : Event) : nat :=
  match e with
  | EvPrintf _ => 0
  | EvFlagSet _ _ => 0
  | EvFlagParse _ => 0
  | EvSetLevel StandardLogger _ => 1
  | EvSetLevel TransportLogger _ => 2
  | EvSignalNotify => 3
  | EvListen _ _ _ => 4
  | EvDebugf _ => 4
  | EvBuildConfigFromFlags _ _ _ => 5
  | EvInClusterConfig _ => 5
  | EvNewForConfig _ _ => 6
  | EvParseOriginSecretsFile _ _ => 7
  | EvEnableMetrics _ => 8
  | EvSetRepairBackoff _ _ _ => 9
  | EvSetTagLimit _ => 10
  | EvSetVersion _ => 11
  | EvNewController _ => 12
  | EvRun _ => 13
  | EvFatalf _ => 14
  end.

(** Each event is in a phase no earlier than the one before it. *)
Fixpoint ordered (l : list Event) : bool :=
  match l with
  | a :: (b :: _) as t => (phase a <=? phase b)%nat && ordered t
  | _ => true
  end.

Definition is_controller (e : Event) : bool :=
  match e with EvNewController _ => true | _ => false end.

(** The calls that build the Kubernetes client. *)
Definition kubernetes_call (e : Event) : bool :=
  match e with
  | EvBuildConfigFromFlags _ _ _ | EvInClusterConfig _ | EvNewForConfig _ _ => true
  | _ => false
  end.

(** An environment in which the run group ends with an error. *)
Definition env_interrupted : Env :=
  {| flag_Parse := λ _, None;
     net_Listen := λ h _ _, Ok (length h);
     clientcmd_BuildConfigFromFlags := λ _ _ _, Ok 1%nat;
     rest_InClusterConfig := λ _, Ok 2%nat;
     kubernetes_NewForConfig := λ _ cfg, Ok cfg;
     cloudflare_ParseOriginSecretsFile := λ _ _, Ok OriginSecrets_zero;
     run_Group_Run := λ _ _, Some "context canceled" |}.

(** A command line that names an origin secret configuration and enables no
    listener. *)
Definition sample_flags_secrets : Flags :=
  {| verbose := 5; incluster := true; kubeconfig := "/root/.kube/config";
     ingressclass := "argo-tunnel";
     originsecret := {| Namespace := "edge"; Name := "origin-cert" |};
     originconfig := "/etc/argot/secrets.yaml";
     debugaddr := "127.0.0.1:8081"; debugenable := false;
     metricsaddr := "0.0.0.0:8080"; metricsenable := false;
     connlimit := 512; repairdelay := 1000000000; repairjitter := 0;
     repairsteps := 3; resyncperiod := 300000000000; taglimit := 32;
     transportlogenable := true; watchNamespace := ""; workers := 2 |}.

(** What [sample_flags] hands to [NewController] in [env_ok]. *)
Definition sample_options : ControllerOptions :=
  {| opt_client := 1%nat; opt_IngressClass := "argo-tunnel";
     opt_SecretGroups := OriginSecrets_zero;
     opt_Secret := {| Namespace := "edge"; Name := "origin-cert" |};
     opt_ResyncPeriod := 300000000000; opt_WatchNamespace := "";
     opt_Workers := 2 |}.

(** The events of a [sample_flags] run before the controller is built. *)
Definition sample_setup : list Event :=
  [EvFlagSet "logtostderr" "true"; EvFlagSet "v" "3"; EvFlagParse None;
   EvSetLevel StandardLogger WarnLevel; EvSignalNotify;
   EvListen "tcp" "127.0.0.1:8081" true;
   EvDebugf "debug listener on address: 127.0.0.1:8081";
   EvListen "tcp" "0.0.0.0:8080" true;
   EvDebugf "metrics listener on address: 0.0.0.0:8080";
   EvBuildConfigFromFlags "" "/root/.kube/config" true;
   EvNewForConfig 1%nat true;
   EvEnableMetrics 5000000000;
   EvSetRepairBackoff 1000000000 0 3; EvSetTagLimit 32; EvSetVersion "UNKNOWN"].

(** The run group of a [sample_flags] run. *)
Definition sample_actors : list Actor :=
  [SignalActor; DebugServer 5%nat 512; MetricsServer 7%nat 512;
   ControllerActor sample_options].

(** [sample_flags] with the verbosity at 0. *)
Definition sample_flags_silent : Flags :=
  {| verbose := 0; incluster := false; kubeconfig := "/root/.kube/config";
     ingressclass := "argo-tunnel";
     originsecret := {| Namespace := "edge"; Name := "origin-cert" |};
     originconfig := "";
     debugaddr := "127.0.0.1:8081"; debugenable := true;
     metricsaddr := "0.0.0.0:8080"; metricsenable := true;
     connlimit := 512; repairdelay := 1000000000; repairjitter := 0;
     repairsteps := 3; resyncperiod := 300000000000; taglimit := 32;
     transportlogenable := false; watchNamespace := ""; workers := 2 |}.

(** [sample_flags] with a negative connection limit. *)
Definition sample_flags_negative_limit : Flags :=
  {| verbose := 3; incluster := false; kubeconfig := "/root/.kube/config";
     ingressclass := "argo-tunnel";
     originsecret := {| Namespace := "edge"; Name := "origin-cert" |};
     originconfig := "";
     debugaddr := "127.0.0.1:8081"; debugenable := true;
     metricsaddr := "0.0.0.0:8080"; metricsenable := true;
     connlimit := -1; repairdelay := 1000000000; repairjitter := 0;
     repairsteps := 3; resyncperiod := 300000000000; taglimit := 32;
     transportlogenable := false; watchNamespace := ""; workers := 2 |}.

(** An environment in which [flag.Parse] meets an argument it does not know
    and ends the process with status 2. *)
Definition env_unknown_flag : Env :=
  {| flag_Parse := λ _, Some 2;
     net_Listen := λ h _ _, Ok (length h);
     clientcmd_BuildConfigFromFlags := λ _ _ _, Ok 1%nat;
     rest_InClusterConfig := λ _, Ok 2%nat;
     kubernetes_NewForConfig := λ _ cfg, Ok cfg;
     cloudflare_ParseOriginSecretsFile := λ _ _, Ok OriginSecrets_zero;
     run_Group_Run := λ _ _, None |}.

(** How many workers hold [k]: how often it stands among the keys [Dequeue]
    has handed out and [MarkDone] has not yet taken back. *)
Definition in_flight (k : IngressKey) (q : WorkQueue.t) : nat :=
  length (filter (λ k', k' = k) (WorkQueue.inflight q)).

(** * Properties of the bootstrap *)

Set Warnings "-clear-no-such-hyp".

Ltac unfold_proc :=
  unfold mbind, Proc_bind, mret, Proc_ret, emit, call, or_panic, log_Fatalf, os_Exit.

(** Case analysis on every answer of the environment and every flag the
    process branches on. *)
Ltac split_proc :=
  repeat (cbn -[String.app];
    match goal with
    | |- context [match ?x with Ok _ => _ | Err _ => _ end] => destruct x eqn:?
    | |- context [match ?x with Some _ => _ | None => _ end] => destruct x eqn:?
    | |- context [if ?b then _ else _] => destruct b eqn:?
    end).

(** Membership in a trace that is written out. *)
Ltac in_trace H :=
  repeat (apply elem_of_cons in H as [H|H]);
  try (apply elem_of_nil in H; destruct H).

Lemma logruslevel_defined (v : Z) : ∃ l, logruslevel v = Some l.
Proof.
  unfold logruslevel.
  destruct (0 <=? v) eqn:H0; destruct (v <=? 5) eqn:H5; simpl;
    try (destruct (5 <? v); eauto; fail).
  apply lookup_lt_is_Some. simpl. lia.
Qed.

Example logruslevel_default : logruslevel 3 = Some WarnLevel.
Proof. reflexivity. Qed.

Example logruslevel_silent : logruslevel 0 = Some PanicLevel.
Proof. reflexivity. Qed.

(** C8: [logruslevel] returns a level for every verbosity: [PanicLevel] below
    0, the entry of [logrus.AllLevels] at index [v] from 0 to 5, where the
    index is within the table, and [DebugLevel] above 5; the panic of an
    out-of-range index is never reached. *)
Theorem logruslevel_cases (v : Z) :
  (v < 0 → logruslevel v = Some PanicLevel) ∧
  (0 ≤ v ≤ 5 →
     (Z.to_nat v < length AllLevels)%nat ∧
     logruslevel v = AllLevels !! Z.to_nat v ∧
     is_Some (AllLevels !! Z.to_nat v)) ∧
  (5 < v → logruslevel v = Some DebugLevel) ∧
  logruslevel v ≠ None.
Proof.
  unfold logruslevel. split; [|split; [|split]].
  - intros Hv. destruct (0 <=? v) eqn:E; [lia|]. simpl.
    destruct (5 <? v) eqn:E'; [lia|done].
  - intros [H0 H5]. destruct (0 <=? v) eqn:E; [|lia]. destruct (v <=? 5) eqn:E'; [|lia].
    simpl. split; [lia|]. split; [done|]. apply lookup_lt_is_Some. simpl. lia.
  - intros Hv. destruct (v <=? 5) eqn:E'; [lia|]. rewrite andb_false_r.
    destruct (5 <? v) eqn:E''; [done|lia].
  - destruct (logruslevel_defined v) as [l Hl]. unfold logruslevel in Hl. by rewrite Hl.
Qed.

Lemma logruslevel_cases_witness :
  0 ≤ 4 ≤ 5 ∧ logruslevel 4 = AllLevels !! 4%nat ∧ AllLevels !! 4%nat = Some InfoLevel.
Proof.
  split; [lia|]. split; [|reflexivity].
  destruct (logruslevel_cases 4) as (_ & Hmid & _).
  destruct Hmid as (_ & Heq & _); [lia|]. exact Heq.
Defined.

(** [kubeclient] with a path and outside the cluster: the first call reads the
    kubeconfig file, and only [NewForConfig] can follow. *)
Lemma kubeclient_from_file path inclust env h :
  negb (String.eqb path "") && negb inclust = true →
  ∃ t, kubeclient path inclust env h
       = (h ++ EvBuildConfigFromFlags "" path
                 (is_ok (clientcmd_BuildConfigFromFlags env h "" path)) :: t,
          (kubeclient path inclust env h).2)
     ∧ (∀ e, e ∈ t → ∃ cfg ok, e = EvNewForConfig cfg ok
                       ∧ clientcmd_BuildConfigFromFlags env h "" path = Ok cfg).
Proof.
  intros Hb. unfold kubeclient. unfold_proc. rewrite Hb.
  destruct (clientcmd_BuildConfigFromFlags env h "" path) as [cfg0|err]; simpl.
  - eexists [_]. rewrite <- (assoc_L (++)). split; [done|].
    intros e He. in_trace He. eauto.
  - exists []. split; [done|]. intros e He. in_trace He.
Qed.

(** [kubeclient] in every other case: the first call asks for the in-cluster
    configuration. *)
Lemma kubeclient_in_cluster path inclust env h :
  negb (String.eqb path "") && negb inclust = false →
  ∃ t, kubeclient path inclust env h
       = (h ++ EvInClusterConfig (is_ok (rest_InClusterConfig env h)) :: t,
          (kubeclient path inclust env h).2)
     ∧ (∀ e, e ∈ t → ∃ cfg ok, e = EvNewForConfig cfg ok
                       ∧ rest_InClusterConfig env h = Ok cfg).
Proof.
  intros Hb. unfold kubeclient. unfold_proc. rewrite Hb.
  destruct (rest_InClusterConfig env h) as [cfg0|err]; simpl.
  - eexists [_]. rewrite <- (assoc_L (++)). split; [done|].
    intros e He. in_trace He. eauto.
  - exists []. split; [done|]. intros e He. in_trace He.
Qed.

(** C10: [kubeclient] reads the kubeconfig file exactly when the path is not
    empty and [incluster] is false; otherwise it asks for the in-cluster
    configuration; the clientset is built from the configuration so chosen;
    and with [incluster] set the path has no effect at all. *)
Theorem kubeclient_config_source path inclust env h :
  ∃ t, (kubeclient path inclust env h).1 = h ++ t ∧
    ((∃ ok, EvBuildConfigFromFlags "" path ok ∈ t) ↔ (path ≠ "" ∧ inclust = false)) ∧
    ((∃ ok, EvInClusterConfig ok ∈ t) ↔ ¬ (path ≠ "" ∧ inclust = false)) ∧
    (∀ cfg ok, EvNewForConfig cfg ok ∈ t →
       (if negb (String.eqb path "") && negb inclust
        then clientcmd_BuildConfigFromFlags env h "" path
        else rest_InClusterConfig env h) = Ok cfg) ∧
    (inclust = true → kubeclient path inclust env h = kubeclient "" inclust env h).
Proof.
  assert (Hsel : negb (String.eqb path "") && negb inclust = true
                 ↔ path ≠ "" ∧ inclust = false).
  { destruct (String.eqb_spec path ""), inclust; simpl; naive_solver. }
  assert (Hign : inclust = true →
                 kubeclient path inclust env h = kubeclient "" inclust env h).
  { intros ->. unfold kubeclient. by rewrite andb_false_r. }
  destruct (negb (String.eqb path "") && negb inclust) eqn:Hb.
  - destruct (kubeclient_from_file path inclust env h Hb) as (t & Heq & Ht).
    eexists (_ :: t). split; [by rewrite Heq|].
    split; [|split; [|split]]; [| | |exact Hign].
    + split; [intros _; by apply Hsel|]. intros _. eexists. apply list_elem_of_here.
    + split.
      * intros [ok Hin]. apply elem_of_cons in Hin as [Hin|Hin]; [done|].
        apply Ht in Hin as (? & ? & ? & _). done.
      * intros Hn. destruct Hn. by apply Hsel.
    + intros cfg ok Hin. apply elem_of_cons in Hin as [Hin|Hin]; [done|].
      apply Ht in Hin as (? & ? & ? & ?). by simplify_eq.
  - destruct (kubeclient_in_cluster path inclust env h Hb) as (t & Heq & Ht).
    assert (Hno : ¬ (path ≠ "" ∧ inclust = false)).
    { intros Hyes. apply Hsel in Hyes. done. }
    eexists (_ :: t). split; [by rewrite Heq|].
    split; [|split; [|split]]; [| | |exact Hign].
    + split; [|intros Hyes; by destruct Hno].
      intros [ok Hin]. apply elem_of_cons in Hin as [Hin|Hin]; [done|].
      apply Ht in Hin as (? & ? & ? & _). done.
    + split; [done|]. intros _. eexists. apply list_elem_of_here.
    + intros cfg ok Hin. apply elem_of_cons in Hin as [Hin|Hin]; [done|].
      apply Ht in Hin as (? & ? & ? & ?). by simplify_eq.
Qed.

Example kubeclient_outside_cluster :
  run (kubeclient "/root/.kube/config" false) env_ok
  = ([EvBuildConfigFromFlags "" "/root/.kube/config" true; EvNewForConfig 1%nat true],
     Ret (Ok 1%nat)).
Proof. reflexivity. Qed.

Example kubeclient_path_ignored :
  run (kubeclient "/root/.kube/config" true) env_ok
  = ([EvInClusterConfig true; EvNewForConfig 2%nat true], Ret (Ok 2%nat)).
Proof. reflexivity. Qed.

Lemma kubeclient_config_source_witness :
  kubeclient "/root/.kube/config" true env_ok []
  = kubeclient "" true env_ok [].
Proof.
  destruct (kubeclient_config_source "/root/.kube/config" true env_ok [])
    as (t & _ & _ & _ & _ & Hign).
  exact (Hign eq_refl).
Defined.

(** ** The [couple] command *)

Example couple_runs :
  run (main "argot" "UNKNOWN" "linux" "amd64" CmdCouple sample_flags) env_ok
  = (sample_setup ++ [EvNewController sample_options; EvRun sample_actors], Ret ()).
Proof. reflexivity. Qed.

Example couple_port_taken :
  run (main_couple "UNKNOWN" sample_flags) env_port_taken
  = ([EvFlagSet "logtostderr" "true"; EvFlagSet "v" "3"; EvFlagParse None;
      EvSetLevel StandardLogger WarnLevel; EvSignalNotify;
      EvListen "tcp" "127.0.0.1:8081" false;
      EvFatalf "cannot open debug listener: address already in use"],
     Exit 1).
Proof. reflexivity. Qed.

(** [flag.Parse] ends the process before any logger is set. *)
Example couple_flag_exit :
  run (main_couple "UNKNOWN" sample_flags) env_unknown_flag
  = ([EvFlagSet "logtostderr" "true"; EvFlagSet "v" "3"; EvFlagParse (Some 2)],
     Exit 2).
Proof. reflexivity. Qed.

(** With a negative connection limit [netutil.LimitListener] panics once the
    profiling listener is bound. *)
Example couple_negative_limit :
  run (main_couple "UNKNOWN" sample_flags_negative_limit) env_ok
  = ([EvFlagSet "logtostderr" "true"; EvFlagSet "v" "3"; EvFlagParse None;
      EvSetLevel StandardLogger WarnLevel; EvSignalNotify;
      EvListen "tcp" "127.0.0.1:8081" true],
     Panic).
Proof. reflexivity. Qed.

(** At verbosity 3 the two [Debugf] entries of a run are not written, and the
    error of the run group is. *)
Example couple_interrupted_log :
  written (run (main_couple "UNKNOWN" sample_flags) env_interrupted).1
  = ["received fatal error, err=context canceled" +:+ LF].
Proof. reflexivity. Qed.

Ltac in_list :=
  solve [repeat first [apply list_elem_of_here | apply list_elem_of_further]].

(** The message of a failed startup call, from the answers of the
    environment the case analysis has recorded. *)
Ltac reported_here :=
  first
    [ eapply reported_debug; [eassumption | reflexivity | eassumption]
    | eapply reported_metrics;
        [eassumption | intros ?; first [in_list | congruence] | eassumption]
    | eapply reported_kubeconfig; eassumption
    | eapply reported_incluster; eassumption
    | eapply reported_clientset; eassumption
    | eapply reported_secrets; eassumption ].

(** Every run of the [couple] command has one of the shapes. *)
Lemma main_couple_shape version f env :
  shape f env (run (main_couple version f) env).1 (run (main_couple version f) env).2.
Proof.
  unfold run, main_couple, debug_block, metrics_block, controller_block,
    kubeclient, originsecrets, flag_Parse_call, netutil_LimitListener.
  destruct (logruslevel_defined (verbose f)) as [l Hl]. rewrite Hl.
  unfold_proc. split_proc.
  all: cbn -[String.app].
  all: match goal with
       | |- shape _ _ ?tr Panic =>
           let init := eval cbn in (take (length tr - 1) tr) in
           eapply (shape_panic _ _ _ _ init);
             [reflexivity | in_list | by apply Z.ltb_lt | reflexivity | reflexivity]
       | |- shape _ _ ?tr (Ret _) =>
           let init := eval cbn in (take (length tr - 1) tr) in
           eapply (shape_ran _ _ _ _ init);
             [reflexivity | in_list | eassumption | reflexivity | reflexivity]
       | |- shape _ _ ?tr (Exit _) =>
           let init := eval cbn in (take (length tr - 2) tr) in
           first
             [ eapply shape_flag_exit; [eassumption | reflexivity | reflexivity]
             | eapply (shape_failed _ _ _ _ init);
                 [ | | | | | reflexivity | reflexivity ];
                 [ reflexivity | in_list | reflexivity | reported_here | exact Hl ]
             | eapply (shape_ran_failed _ _ _ _ init);
                 [ reflexivity | in_list | eassumption | exact Hl
                 | reflexivity | reflexivity ] ]
       end.
Qed.

(** A list with one marked element splits around it in one way only. *)
Lemma split_at_unique {A} (P : A → bool) (l1 l2 k1 k2 : list A) (x y : A) :
  forallb (λ a, negb (P a)) k1 = true → forallb (λ a, negb (P a)) k2 = true →
  P x = true → P y = true →
  l1 ++ x :: l2 = k1 ++ y :: k2 → l2 = k2.
Proof.
  revert k1. induction l1 as [|a l1 IH]; intros [|b k1] Hk1 Hk2 Hx Hy Heq;
    simpl in *; simplify_eq.
  - done.
  - rewrite Hx in Hk1. done.
  - rewrite forallb_app in Hk2. simpl in Hk2. rewrite Hx in Hk2.
    rewrite andb_false_r in Hk2. done.
  - apply andb_prop in Hk1 as [_ Hk1]. eauto.
Qed.

Lemma quiet_forall (init : list Event) (P : Event → bool) :
  (∀ e, quiet e = true → P e = false) →
  forallb quiet init = true → ∀ e, e ∈ init → P e = false.
Proof.
  intros HP Hall e He. rewrite forallb_forall in Hall. apply HP, Hall.
  by apply list_elem_of_In.
Qed.

Lemma quiet_not_failure e : quiet e = true → startup_failure e = false.
Proof.
  unfold quiet. destruct (startup_failure e); [|done]. by rewrite andb_false_r.
Qed.

Lemma quiet_not_run e : quiet e = true → is_run e = false.
Proof. unfold quiet. by destruct (is_run e). Qed.

Lemma quiet_no_run (init : list Event) :
  forallb quiet init = true → forallb (λ a, negb (is_run a)) init = true.
Proof.
  rewrite !forallb_forall. intros Hall a Ha.
  apply negb_true_iff, quiet_not_run. by apply Hall.
Qed.

(** A trace without [EvRun] does not split around one. *)
Lemma no_run_no_split (tr pre post : list Event) g :
  forallb (λ a, negb (is_run a)) tr = true → tr ≠ pre ++ EvRun g :: post.
Proof.
  intros Hall ->. rewrite forallb_app in Hall. simpl in Hall.
  by rewrite andb_false_r in Hall.
Qed.

(** The numeric value of the level [logruslevel] returns is the verbosity
    clamped to the range from 0 to 5. *)
Lemma logruslevel_value v l :
  logruslevel v = Some l → Level_value l = Z.max 0 (Z.min v 5).
Proof.
  unfold logruslevel.
  destruct (0 <=? v) eqn:H0; destruct (v <=? 5) eqn:H5; simpl.
  - assert (v = 0 ∨ v = 1 ∨ v = 2 ∨ v = 3 ∨ v = 4 ∨ v = 5) as Hv by lia.
    destruct Hv as [->|[->|[->|[->|[->| ->]]]]]; intros [= <-]; reflexivity.
  - destruct (5 <? v) eqn:H5'; [|lia]. intros [= <-]. simpl. lia.
  - destruct (5 <? v) eqn:H5'; [lia|]. intros [= <-]. simpl. lia.
  - lia.
Qed.

(** A logger at the level of verbosity [v] writes a fatal entry exactly when
    [v] is at least 1. *)
Lemma logruslevel_fatal v l :
  logruslevel v = Some l → IsLevelEnabled l FatalLevel = (1 <=? v).
Proof.
  intros Hl. apply logruslevel_value in Hl. unfold IsLevelEnabled. simpl.
  destruct (1 <=? v) eqn:Hv; [apply Z.leb_le|apply Z.leb_gt]; lia.
Qed.

Lemma standard_level_from_app c (a b : list Event) :
  standard_level_from c (a ++ b) = standard_level_from (standard_level_from c a) b.
Proof.
  revert c. induction a as [|e a IH]; intros c; [done|].
  destruct e as [| | |[] ?| | | | | | | | | | | | | |]; simpl; apply IH.
Qed.

Lemma written_from_app c (a b : list Event) :
  written_from c (a ++ b)
  = written_from c a ++ written_from (standard_level_from c a) b.
Proof.
  revert c. induction a as [|e a IH]; intros c; [done|].
  destruct e as [| | |[] ?| | | | | | | | | | | | | |]; simpl;
    rewrite ?IH, ?(assoc_L (++)); done.
Qed.

(** What a [log.Fatalf] at the end of a trace adds to the log. *)
Lemma written_fatal (f : Flags) (init : list Event) (e : Event) (msg : string) :
  logruslevel (verbose f) = Some (standard_level init) →
  is_run e = true ∨ startup_failure e = true →
  written (init ++ [e; EvFatalf msg])
  = written init ++ (if 1 <=? verbose f then [msg] else []).
Proof.
  intros Hl He. unfold written. rewrite written_from_app. f_equal.
  fold (standard_level init). rewrite <- (logruslevel_fatal _ _ Hl).
  destruct He as [He|He]; destruct e; try discriminate He; simpl;
    by rewrite (right_id_L [] (++)).
Qed.

(** C7: in every run of the [couple] command, a startup call that fails
    (binding an enabled listener, building the Kubernetes client, parsing the
    origin secret configuration) is followed at once by [log.Fatalf] with the
    label of the statement that failed and the error the call returned, and
    the process exits with status 1 without ever starting the run group; the
    standard logger writes that message exactly when the verbosity is at
    least 1.  A failure to parse the origin secret configuration is one of
    them.  Once the run group has started no startup call is made any more,
    so such a failure cannot happen mid-run. *)
Theorem startup_errors_exit version f env tr out :
  run (main_couple version f) env = (tr, out) →
  (∀ e, e ∈ tr → startup_failure e = true →
     out = Exit 1 ∧
     (∃ pre msg, tr = pre ++ [e; EvFatalf msg] ∧ reported f env pre e msg ∧
        written tr = written pre ++ (if 1 <=? verbose f then [msg] else [])) ∧
     (∀ g, EvRun g ∉ tr)) ∧
  (∀ p, EvParseOriginSecretsFile p false ∈ tr →
     out = Exit 1 ∧
     ∃ pre err, cloudflare_ParseOriginSecretsFile env pre p = Err err ∧
       tr = pre ++ [EvParseOriginSecretsFile p false;
                    EvFatalf ("failed to parse origin secrets: " +:+ err)]) ∧
  (∀ pre g post, tr = pre ++ EvRun g :: post → ∀ e, e ∈ post → startup_call e = false).
Proof.
  intros Hrun. pose proof (main_couple_shape version f env) as Hs.
  rewrite Hrun in Hs. simpl in Hs.
  assert (Hfail : ∀ e, e ∈ tr → startup_failure e = true →
     out = Exit 1 ∧
     (∃ pre msg, tr = pre ++ [e; EvFatalf msg] ∧ reported f env pre e msg ∧
        written tr = written pre ++ (if 1 <=? verbose f then [msg] else [])) ∧
     (∀ g, EvRun g ∉ tr)).
  { destruct Hs as [status Hst -> ->|init a Hinit Hp Hneg -> ->
                   |init e0 msg Hinit Hp He0 Hrep Hl -> ->|init g0 Hinit Hp Hg0 -> ->
                   |init g0 err Hinit Hp Hg0 Hl -> ->];
      intros e He Hf.
    1: { in_trace He; subst; discriminate Hf. }
    all: apply elem_of_app in He as [He|He];
      try (rewrite (quiet_forall init _ quiet_not_failure Hinit e He) in Hf; done);
      in_trace He; subst; try discriminate Hf.
    split; [done|]. split.
    { exists init, msg. split; [done|]. split; [done|].
      apply written_fatal; auto. }
    intros g Hg. apply elem_of_app in Hg as [Hg|Hg].
    { pose proof (quiet_forall init _ quiet_not_run Hinit _ Hg). done. }
    in_trace Hg; subst; discriminate. }
  split; [exact Hfail|]. split.
  - intros p Hin.
    destruct (Hfail _ Hin eq_refl) as (Hout & (pre & msg & Htr & Hrep & _) & _).
    split; [done|]. inversion Hrep; subst. eauto.
  - destruct Hs as [status Hst -> ->|init a Hinit Hp Hneg -> ->
                   |init e0 msg Hinit Hp He0 Hrep Hl -> ->|init g0 Hinit Hp Hg0 -> ->
                   |init g0 err Hinit Hp Hg0 Hl -> ->]; intros pre g post Heq e He.
    + by apply no_run_no_split in Heq.
    + apply no_run_no_split in Heq; [done|].
      by rewrite forallb_app, (quiet_no_run _ Hinit).
    + apply no_run_no_split in Heq; [done|].
      rewrite forallb_app, (quiet_no_run _ Hinit). simpl.
      destruct e0; try discriminate He0; done.
    + assert (post = []) as ->; [|by apply elem_of_nil in He].
      symmetry in Heq.
      by eapply (split_at_unique is_run _ _ _ _ _ _ (quiet_no_run _ Hinit) _ _ _ Heq).
    + assert (post = [EvFatalf ("received fatal error, err=" +:+ err +:+ LF)]) as ->.
      { symmetry in Heq.
        by eapply (split_at_unique is_run _ _ _ _ _ _ (quiet_no_run _ Hinit) _ _ _ Heq). }
      in_trace He; subst. done.
  Unshelve. all: done.
Qed.

Lemma startup_errors_exit_witness :
  run (main_couple "UNKNOWN" sample_flags) env_port_taken
  = ([EvFlagSet "logtostderr" "true"; EvFlagSet "v" "3"; EvFlagParse None;
      EvSetLevel StandardLogger WarnLevel; EvSignalNotify;
      EvListen "tcp" "127.0.0.1:8081" false;
      EvFatalf "cannot open debug listener: address already in use"],
     Exit 1)
  ∧ startup_failure (EvListen "tcp" "127.0.0.1:8081" false) = true
  ∧ ∃ pre msg,
      [EvFlagSet "logtostderr" "true"; EvFlagSet "v" "3"; EvFlagParse None;
       EvSetLevel StandardLogger WarnLevel; EvSignalNotify;
       EvListen "tcp" "127.0.0.1:8081" false;
       EvFatalf "cannot open debug listener: address already in use"]
      = pre ++ [EvListen "tcp" "127.0.0.1:8081" false; EvFatalf msg]
      ∧ reported sample_flags env_port_taken pre
          (EvListen "tcp" "127.0.0.1:8081" false) msg
      ∧ written
          [EvFlagSet "logtostderr" "true"; EvFlagSet "v" "3"; EvFlagParse None;
           EvSetLevel StandardLogger WarnLevel; EvSignalNotify;
           EvListen "tcp" "127.0.0.1:8081" false;
           EvFatalf "cannot open debug listener: address already in use"]
        = written pre ++ (if 1 <=? verbose sample_flags then [msg] else []).
Proof.
  split; [reflexivity|]. split; [reflexivity|].
  destruct (startup_errors_exit "UNKNOWN" sample_flags env_port_taken _ _ eq_refl)
    as (Hfail & _ & _).
  destruct (Hfail (EvListen "tcp" "127.0.0.1:8081" false)) as (_ & Hrep & _).
  - cbn. set_solver.
  - reflexivity.
  - exact Hrep.
Defined.

(** With verbosity 0 the standard logger is at [PanicLevel]: the profiling
    listener cannot be bound, the process exits with status 1, and nothing is
    written. *)
Lemma startup_error_not_written :
  run (main_couple "UNKNOWN" sample_flags_silent) env_port_taken
  = ([EvFlagSet "logtostderr" "true"; EvFlagSet "v" "0"; EvFlagParse None;
      EvSetLevel StandardLogger PanicLevel; EvSignalNotify;
      EvListen "tcp" "127.0.0.1:8081" false;
      EvFatalf "cannot open debug listener: address already in use"],
     Exit 1)
  ∧ written (run (main_couple "UNKNOWN" sample_flags_silent) env_port_taken).1 = [].
Proof. split; reflexivity. Qed.

(** ** Running without an origin secret configuration *)

Lemma originsecrets_nil env h : originsecrets "" env h = (h, Ret (Ok OriginSecrets_zero)).
Proof. reflexivity. Qed.

Example originsecrets_reads_file :
  run (originsecrets "/etc/argot/secrets.yaml") env_ok
  = ([EvParseOriginSecretsFile "/etc/argot/secrets.yaml" true],
     Ret (Ok OriginSecrets_zero)).
Proof. reflexivity. Qed.

Lemma prefix_app (p s : string) : String.prefix p (p +:+ s) = true.
Proof.
  induction p as [|c p IH]; simpl; [by destruct s|].
  destruct (Ascii.ascii_dec c c); [done|congruence].
Qed.

Lemma main_couple_without_secret_config version f env :
  originconfig f = "" →
  forallb without_secret_config (run (main_couple version f) env).1 = true.
Proof.
  intros Hcfg.
  unfold run, main_couple, debug_block, metrics_block, controller_block, kubeclient,
    flag_Parse_call, netutil_LimitListener.
  rewrite Hcfg.
  destruct (logruslevel_defined (verbose f)) as [l ->].
  change (originsecrets "") with (mret (M:=Proc) (Ok OriginSecrets_zero)).
  unfold_proc. split_proc.
  all: reflexivity.
Qed.

(** C9: with the empty path [originsecrets] returns the empty value and no
    error and leaves the trace as it is (no file is read); so a [couple] run
    without [--origin-secret-config] never parses a file, never dies of
    "failed to parse origin secrets", hands the controller no group, and a
    resolver with no group answers with the default secret reference. *)
Theorem originsecrets_empty_path :
  (∀ env h, originsecrets "" env h = (h, Ret (Ok OriginSecrets_zero))) ∧
  (∀ version f env tr,
     originconfig f = "" → tr = (run (main_couple version f) env).1 →
     (∀ p ok, EvParseOriginSecretsFile p ok ∉ tr) ∧
     (∀ err, EvFatalf ("failed to parse origin secrets: " +:+ err) ∉ tr) ∧
     (∀ o, EvNewController o ∈ tr → Groups (opt_SecretGroups o) = [])) ∧
  (∀ default host,
     SecretResolver.resolve (Groups OriginSecrets_zero) default host =
       match default with
       | Some d => inr d
       | None => inl SecretResolver.NoOriginSecret
       end).
Proof.
  split; [apply originsecrets_nil|]. split; [|done].
  intros version f env tr Hcfg ->.
  pose proof (main_couple_without_secret_config version f env Hcfg) as Hall.
  rewrite forallb_forall in Hall.
  assert (Hev : ∀ e, e ∈ (run (main_couple version f) env).1 →
                     without_secret_config e = true).
  { intros e He. by apply Hall, list_elem_of_In. }
  split; [|split].
  - intros p ok Hin. apply Hev in Hin. done.
  - intros err Hin. apply Hev in Hin. unfold without_secret_config in Hin.
    cbn -[String.prefix String.app] in Hin. rewrite prefix_app in Hin. done.
  - intros o Hin. apply Hev in Hin. unfold without_secret_config in Hin. simpl in Hin.
    destruct (Groups (opt_SecretGroups o)); [done|]. simpl in Hin. done.
Qed.

Lemma originsecrets_empty_path_witness :
  originconfig sample_flags = "" ∧
  EvParseOriginSecretsFile "" true ∉ (run (main_couple "UNKNOWN" sample_flags) env_ok).1.
Proof.
  split; [reflexivity|].
  destruct originsecrets_empty_path as (_ & Hrun & _).
  destruct (Hrun "UNKNOWN" sample_flags env_ok _ eq_refl eq_refl) as (Hread & _ & _).
  exact (Hread "" true).
Defined.

(** * Properties of the engine *)

(** ** Work Queue *)

Section work_queue.
Import WorkQueue.
Local Open Scope nat_scope.
Implicit Types (q : t) (k : IngressKey).












Example queue_scenario :
  let q := after [OpEnqueue sample_key; OpEnqueue sample_key; OpDequeue;
                  OpEnqueue sample_key; OpEnqueue sample_key] empty in
  pending q = [] ∧ inflight q = [sample_key] ∧
  pending (MarkDone sample_key q) = [sample_key] ∧
  inflight (MarkDone sample_key q) = [].
Proof. vm_compute. done. Qed.





Example serialization_scenario :
  let q := after [OpEnqueue sample_key; OpDequeue; OpEnqueue sample_key; OpDequeue] empty in
  in_flight sample_key q = 1 ∧ pending q = [] ∧ Dequeue q = (None, q).
Proof. vm_compute. done. Qed.

End work_queue.

(** ** Secret Resolver *)

Section secret_resolver.
Import SecretResolver.
Implicit Types (g : SecretGroup) (groups : list SecretGroup).

Lemma scan_exact host l1 g l2 wild :
  Forall (λ g', matches_exact host g' = false) l1 →
  matches_exact host g = true →
  scan host (l1 ++ g :: l2) wild = Some (group_secret g).
Proof.
  intros Hl1 Hg. revert wild.
  induction Hl1 as [|g' l1 Hg' _ IH]; intros wild; simpl.
  - by rewrite Hg.
  - rewrite Hg'. apply IH.
Qed.

Lemma scan_kept host groups s :
  Forall (λ g', matches_exact host g' = false) groups →
  scan host groups (Some s) = Some s.
Proof. induction 1 as [|g' l Hg' _ IH]; simpl; [done|]. by rewrite Hg'. Qed.

Lemma scan_wildcard host l1 g l2 :
  Forall (λ g', matches_exact host g' = false) (l1 ++ g :: l2) →
  Forall (λ g', matches_wildcard host g' = false) l1 →
  matches_wildcard host g = true →
  scan host (l1 ++ g :: l2) None = Some (group_secret g).
Proof.
  intros Hex Hl1 Hg.
  induction Hl1 as [|g' l1 Hg' _ IH]; simpl in *.
  - apply Forall_cons in Hex as [Hg0 Hex]. rewrite Hg0, Hg. by apply scan_kept.
  - apply Forall_cons in Hex as [Hg0 Hex]. rewrite Hg0, Hg'. by apply IH.
Qed.

Lemma scan_none host groups :
  Forall (λ g', matches_exact host g' = false) groups →
  Forall (λ g', matches_wildcard host g' = false) groups →
  scan host groups None = None.
Proof.
  induction 1 as [|g' l Hg' _ IH]; intros Hw; simpl; [done|].
  apply Forall_cons in Hw as [Hw0 Hw]. rewrite Hg', Hw0. by apply IH.
Qed.

End secret_resolver.

Section invalid_specs.
Import Reconciler.
Variable derived : IngressMeta → string → list Tag.

Lemma host_specs_invalid cfg rs r e :
  r ∈ rs → host_spec cfg r = inl e → ∃ e', host_specs cfg rs = inl e'.
Proof.
  induction rs as [|r0 rs IH]; intros Hin He; [by apply elem_of_nil in Hin|].
  simpl. apply elem_of_cons in Hin as [<-|Hin].
  - rewrite He. eauto.
  - destruct (host_spec cfg r0); [eauto|].
    destruct (IH Hin He) as [e' ->]. eauto.
Qed.

Lemma unresolved_invalid cfg ing r :
  r ∈ ing_rules ing →
  SecretResolver.resolve (cfg_SecretGroups cfg) (cfg_DefaultSecret cfg) (rule_host r)
    = inl SecretResolver.NoOriginSecret →
  ∃ e, build_spec derived cfg ing = inl e.
Proof.
  intros Hin Hres. unfold build_spec.
  destruct (host_specs_invalid cfg (ing_rules ing) r
    (match rule_backend r with
     | None => MissingBackend (rule_host r)
     | Some _ => UnresolvedSecret (rule_host r)
     end) Hin) as [e ->]; [|eauto].
  unfold host_spec. rewrite Hres. by destruct (rule_backend r).
Qed.

Lemma terminate_opens_nothing st :
  Forall (λ a, is_open a = false) (terminate st).2.
Proof.
  unfold terminate, close_of.
  destruct (state st); simpl; try done; destruct (handle st); repeat constructor.
Qed.

End invalid_specs.

(** C3: the resolver answers with the secret of the first group that has an
    exact rule for the host, whatever wildcard groups come before it; without
    an exact match, with the secret of the first group whose wildcard matches;
    without any match, with the default secret reference; and without a
    default it fails with [NoOriginSecret], in which case a reconcile of an
    Ingress naming that host opens no tunnel. *)
Theorem resolve_order (groups : list SecretGroup) (default : option ObjRef)
  (host : string) :
  (∀ l1 g l2, groups = l1 ++ g :: l2 →
     Forall (λ g', SecretResolver.matches_exact host g' = false) l1 →
     SecretResolver.matches_exact host g = true →
     SecretResolver.resolve groups default host = inr (group_secret g)) ∧
  (∀ l1 g l2, groups = l1 ++ g :: l2 →
     Forall (λ g', SecretResolver.matches_exact host g' = false) groups →
     Forall (λ g', SecretResolver.matches_wildcard host g' = false) l1 →
     SecretResolver.matches_wildcard host g = true →
     SecretResolver.resolve groups default host = inr (group_secret g)) ∧
  (Forall (λ g', SecretResolver.matches_exact host g' = false) groups →
   Forall (λ g', SecretResolver.matches_wildcard host g' = false) groups →
     SecretResolver.resolve groups default host =
       match default with
       | Some d => inr d
       | None => inl SecretResolver.NoOriginSecret
       end) ∧
  (∀ derived cfg ing r st,
     cfg_SecretGroups cfg = groups → cfg_DefaultSecret cfg = default →
     r ∈ ing_rules ing → rule_host r = host →
     SecretResolver.resolve groups default host = inl SecretResolver.NoOriginSecret →
     Forall (λ a, Reconciler.is_open a = false)
            (Reconciler.step derived cfg st (Reconciler.Observe (Some ing))).2).
Proof.
  unfold SecretResolver.resolve. split; [|split; [|split]].
  - intros l1 g l2 -> Hl1 Hg. by rewrite scan_exact.
  - intros l1 g l2 -> Hex Hl1 Hg. by rewrite scan_wildcard.
  - intros Hex Hw. by rewrite scan_none.
  - intros derived cfg ing r st <- <- Hin <- Hres. simpl.
    destruct (String.eqb _ _); [|apply terminate_opens_nothing].
    destruct (unresolved_invalid derived cfg ing r Hin Hres) as [e ->].
    by repeat constructor.
Qed.

Example resolve_wildcard :
  SecretResolver.resolve sample_groups None "shop.example.com" = inr secret_wildcard.
Proof. reflexivity. Qed.

Example resolve_nothing :
  SecretResolver.resolve sample_groups None "example.org"
  = inl SecretResolver.NoOriginSecret.
Proof. reflexivity. Qed.

Lemma resolve_order_witness :
  SecretResolver.matches_wildcard "billing.example.com"
    {| group_hosts := [WildcardHost ".example.com"]; group_secret := secret_wildcard |}
  = true
  ∧ SecretResolver.matches_exact "billing.example.com"
      {| group_hosts := [ExactHost "billing.example.com"];
         group_secret := secret_billing |}
    = true
  ∧ SecretResolver.resolve sample_groups None "billing.example.com" = inr secret_billing.
Proof.
  split; [reflexivity|]. split; [reflexivity|].
  destruct (resolve_order sample_groups None "billing.example.com") as (Hexact & _).
  apply (Hexact
    [{| group_hosts := [WildcardHost ".example.com"]; group_secret := secret_wildcard |}]
    {| group_hosts := [ExactHost "billing.example.com"]; group_secret := secret_billing |}
    []).
  - reflexivity.
  - repeat constructor.
  - reflexivity.
Defined.

(** ** Tag Builder *)

Section tag_builder.
Import TagBuilder.
Variable derived : IngressMeta → string → list Tag.

Lemma host_specs_SetTagLimit limit cfg rs :
  Reconciler.host_specs (SetTagLimit limit cfg) rs = Reconciler.host_specs cfg rs.
Proof. induction rs as [|r rs IH]; [done|]. simpl. by rewrite IH. Qed.

(** C5: for a limit that is not negative, the built sequence is never longer
    than the limit and has exactly the limit's length when the full sequence
    is longer; it is a prefix of the full sequence, the namespace and name
    tags coming first; and building the desired spec fails only for reasons
    that depend on neither the limit nor the metadata, so truncation never
    fails a reconcile. *)
Theorem build_truncates (limit : Z) (version : string) (m : IngressMeta) :
  0 ≤ limit →
  Z.of_nat (length (build derived limit version m)) ≤ limit ∧
  (limit < Z.of_nat (length (all_tags derived version m)) →
     Z.of_nat (length (build derived limit version m)) = limit) ∧
  build derived limit version m `prefix_of` all_tags derived version m ∧
  build derived limit version m
    = take (Z.to_nat limit) (identity_tags m)
        ++ take (Z.to_nat limit - 2) (derived m version) ∧
  (∀ cfg ing,
     cfg_TagLimit cfg = limit → cfg_Version cfg = version → ing_meta ing = m →
     match Reconciler.build_spec derived cfg ing with
     | inr s => spec_tags s = build derived limit version m
                ∧ Reconciler.host_specs cfg (ing_rules ing) = inr (spec_hosts s)
     | inl e => ∀ limit' meta',
         Reconciler.build_spec derived (SetTagLimit limit' cfg)
           {| ing_meta := meta'; ing_class := ing_class ing;
              ing_rules := ing_rules ing |}
         = inl e
     end).
Proof.
  intros Hlimit. unfold build.
  split; [rewrite length_take; lia|].
  split; [rewrite length_take; lia|].
  split; [apply prefix_take|].
  split; [unfold all_tags; by rewrite take_app|].
  intros cfg ing <- <- <-. unfold Reconciler.build_spec.
  destruct (Reconciler.host_specs cfg (ing_rules ing)) as [e|hs] eqn:Hhs; simpl.
  - intros limit' meta'. by rewrite host_specs_SetTagLimit, Hhs.
  - done.
Qed.

End tag_builder.

Example build_sample :
  TagBuilder.build TagBuilder.version_then_labels 3 "v1" sample_meta
  = [ {| tag_key := "namespace"; tag_value := "ns1" |};
      {| tag_key := "name"; tag_value := "app" |};
      {| tag_key := "version"; tag_value := "v1" |} ].
Proof. reflexivity. Qed.

Lemma build_truncates_witness :
  0 ≤ 2 ∧
  2 < Z.of_nat (length (TagBuilder.all_tags TagBuilder.version_then_labels "v1" sample_meta)) ∧
  Z.of_nat (length (TagBuilder.build TagBuilder.version_then_labels 2 "v1" sample_meta)) = 2.
Proof.
  assert (H0 : 0 ≤ 2) by lia.
  assert (Hlong : 2 < Z.of_nat (length (TagBuilder.all_tags
                     TagBuilder.version_then_labels "v1" sample_meta)))
    by (vm_compute; reflexivity).
  split; [exact H0|]. split; [exact Hlong|].
  destruct (build_truncates TagBuilder.version_then_labels 2 "v1" sample_meta H0)
    as (_ & Hexact & _).
  exact (Hexact Hlong).
Defined.

(** With the limit at -5 the builder returns no tag, and a sequence of length
    0 is longer than the limit. *)
Lemma build_negative_limit :
  TagBuilder.build TagBuilder.version_then_labels (-5) "v1" sample_meta = [] ∧
  ¬ (Z.of_nat (length (TagBuilder.build TagBuilder.version_then_labels (-5) "v1"
                         sample_meta)) ≤ -5).
Proof. split; [reflexivity|]. vm_compute. intros H. by apply H. Qed.

(** ** Repair attempts *)

Section repair.
Import Reconciler.
Local Open Scope nat_scope.
Variable derived : IngressMeta → string → list Tag.

(** One step of a key: entering [Running] resets the count, and any other
    step that keeps the record never lowers it. *)
Lemma step_count cfg st i :
  (state (step derived cfg st i).1 = Running → state st ≠ Running →
     count (repair (step derived cfg st i).1) = 0) ∧
  (state (step derived cfg st i).1 ≠ Running →
   state (step derived cfg st i).1 ≠ Absent →
     count (repair st) ≤ count (repair (step derived cfg st i).1)).
Proof.
  destruct i as [ing|h|now delay|]; simpl.
  - destruct (wanted cfg ing) as [ing'|].
    + destruct (build_spec derived cfg ing') as [e|s]; simpl; [by split|].
      unfold converge, replace.
      destruct (state st) eqn:Hst; simpl; try (split; [done|]; intros; lia);
        destruct (decide (applied st = Some s)); simpl; rewrite ?Hst; split; try done;
        intros; lia.
    + unfold terminate. destruct (state st) eqn:Hst; simpl; rewrite ?Hst;
        split; try done; intros; lia.
  - destruct (state st) eqn:Hst; simpl; rewrite ?Hst; split; try done; intros; lia.
  - unfold fail. destruct (state st) eqn:Hst; simpl; rewrite ?Hst;
      try (split; [done|]; intros; lia).
    destruct (cfg_RepairSteps cfg <? S (count (repair st))); simpl;
      split; try done; intros; lia.
  - destruct (state st) eqn:Hst; simpl; rewrite ?Hst; split; try done; intros; lia.
Qed.

(** The State Store keeps what [step] returns, a missing record being
    [absent]. *)
Lemma reconcile_status cfg k i store :
  state (status_of (reconcile derived cfg k i store).1 k)
    = state (step derived cfg (status_of store k) i).1 ∧
  (state (step derived cfg (status_of store k) i).1 ≠ Absent →
   status_of (reconcile derived cfg k i store).1 k
     = (step derived cfg (status_of store k) i).1).
Proof.
  unfold reconcile.
  destruct (step derived cfg (status_of store k) i) as [st' acts]; simpl.
  unfold status_of.
  destruct (state st') eqn:Hst; simpl;
    rewrite ?lookup_delete_eq, ?lookup_insert_eq; simpl; split; congruence.
Qed.

Lemma reconcile_other cfg k k' i store :
  k' ≠ k → status_of (reconcile derived cfg k i store).1 k' = status_of store k'.
Proof.
  intros Hne. unfold reconcile.
  destruct (step derived cfg (status_of store k) i) as [st' acts]; simpl.
  unfold status_of.
  destruct (state st'); simpl; by rewrite ?lookup_delete_ne, ?lookup_insert_ne.
Qed.

Lemma reconcile_count cfg k i store :
  (state (status_of (reconcile derived cfg k i store).1 k) = Running →
   state (status_of store k) ≠ Running →
   count (repair (status_of (reconcile derived cfg k i store).1 k)) = 0) ∧
  (unhealthy (status_of (reconcile derived cfg k i store).1 k) →
   count (repair (status_of store k))
     ≤ count (repair (status_of (reconcile derived cfg k i store).1 k))).
Proof.
  destruct (reconcile_status cfg k i store) as [Hstate Heq].
  destruct (step_count cfg (status_of store k) i) as [Hreset Hmono].
  split.
  - intros Hrun Hnot. rewrite Heq; [|congruence].
    apply Hreset; [congruence|done].
  - intros Hun.
    assert (state (step derived cfg (status_of store k) i).1 ≠ Running
            ∧ state (step derived cfg (status_of store k) i).1 ≠ Absent) as [H1 H2].
    { rewrite <- Hstate. destruct Hun as [-> | ->]; done. }
    rewrite Heq by done. by apply Hmono.
Qed.

Lemma statuses_sorted cfg k inputs store :
  Forall unhealthy (statuses derived cfg k inputs store) →
  Sorted (λ a b, count (repair a) ≤ count (repair b))
    (statuses derived cfg k inputs store).
Proof.
  revert store. induction inputs as [|i rest IH]; intros store Hall; simpl in *.
  - repeat constructor.
  - apply Forall_cons in Hall as [_ Hall]. constructor; [by apply IH|].
    destruct rest; simpl in *; constructor;
      apply Forall_cons in Hall as [Hun _]; by apply reconcile_count.
Qed.

(** C4: a reconcile operation that takes a key into [Running] from another
    state leaves its repair count at 0; one that leaves an unhealthy key
    unhealthy never lowers the count, and along any sequence of operations
    during which the key stays unhealthy the counts are non-decreasing; the
    records of other keys are untouched. *)
Theorem repair_count_monotone_then_reset cfg k i store :
  (state (status_of (reconcile derived cfg k i store).1 k) = Running →
   state (status_of store k) ≠ Running →
   count (repair (status_of (reconcile derived cfg k i store).1 k)) = 0) ∧
  (unhealthy (status_of store k) →
   unhealthy (status_of (reconcile derived cfg k i store).1 k) →
   count (repair (status_of store k))
     ≤ count (repair (status_of (reconcile derived cfg k i store).1 k))) ∧
  (∀ inputs,
     Forall unhealthy (statuses derived cfg k inputs store) →
     StronglySorted (λ a b, count (repair a) ≤ count (repair b))
       (statuses derived cfg k inputs store)) ∧
  (∀ k', k' ≠ k →
     status_of (reconcile derived cfg k i store).1 k' = status_of store k').
Proof.
  destruct (reconcile_count cfg k i store) as [Hreset Hmono].
  split; [done|]. split; [auto|]. split; [|intros; by apply reconcile_other].
  intros inputs Hall. apply Sorted_StronglySorted; [|by apply statuses_sorted].
  intros a b c. lia.
Qed.

End repair.

(** The scenario of the spec: a running tunnel fails four times with three
    repair steps configured. *)
Example repair_scenario :
  map (λ st, (Reconciler.state st, Reconciler.count (Reconciler.repair st)))
    (Reconciler.statuses TagBuilder.version_then_labels sample_config sample_key
       [Reconciler.ConnectionLost 0 1000; Reconciler.ConnectionLost 1000 2000;
        Reconciler.ConnectionLost 3000 4000; Reconciler.ConnectionLost 7000 8000]
       {[sample_key := sample_running]})
  = [(Reconciler.Running, 0%nat); (Reconciler.Repairing, 1%nat);
     (Reconciler.Repairing, 2%nat); (Reconciler.Repairing, 3%nat);
     (Reconciler.Failed, 4%nat)].
Proof. vm_compute. reflexivity. Qed.

Example repair_succeeds :
  map (λ st, (Reconciler.state st, Reconciler.count (Reconciler.repair st)))
    (Reconciler.statuses TagBuilder.version_then_labels sample_config sample_key
       [Reconciler.ConnectionLost 0 1000; Reconciler.ConnectionLost 1000 2000;
        Reconciler.Established 8%nat]
       {[sample_key := sample_running]})
  = [(Reconciler.Running, 0%nat); (Reconciler.Repairing, 1%nat);
     (Reconciler.Repairing, 2%nat); (Reconciler.Running, 0%nat)].
Proof. vm_compute. reflexivity. Qed.

Lemma repair_count_monotone_then_reset_witness :
  Reconciler.state
    (Reconciler.status_of
       (Reconciler.reconciles TagBuilder.version_then_labels sample_config sample_key
          [Reconciler.ConnectionLost 0 1000; Reconciler.ConnectionLost 1000 2000]
          {[sample_key := sample_running]}) sample_key)
  ≠ Reconciler.Running
  ∧ Reconciler.state
      (Reconciler.status_of
         (Reconciler.reconcile TagBuilder.version_then_labels sample_config sample_key
            (Reconciler.Established 8%nat)
            (Reconciler.reconciles TagBuilder.version_then_labels sample_config sample_key
               [Reconciler.ConnectionLost 0 1000; Reconciler.ConnectionLost 1000 2000]
               {[sample_key := sample_running]})).1 sample_key)
    = Reconciler.Running
  ∧ Reconciler.count (Reconciler.repair
      (Reconciler.status_of
         (Reconciler.reconcile TagBuilder.version_then_labels sample_config sample_key
            (Reconciler.Established 8%nat)
            (Reconciler.reconciles TagBuilder.version_then_labels sample_config sample_key
               [Reconciler.ConnectionLost 0 1000; Reconciler.ConnectionLost 1000 2000]
               {[sample_key := sample_running]})).1 sample_key))
    = 0%nat.
Proof.
  assert (Hfrom : Reconciler.state
    (Reconciler.status_of
       (Reconciler.reconciles TagBuilder.version_then_labels sample_config sample_key
          [Reconciler.ConnectionLost 0 1000; Reconciler.ConnectionLost 1000 2000]
          {[sample_key := sample_running]}) sample_key)
    ≠ Reconciler.Running) by (vm_compute; discriminate).
  assert (Hto : Reconciler.state
      (Reconciler.status_of
         (Reconciler.reconcile TagBuilder.version_then_labels sample_config sample_key
            (Reconciler.Established 8%nat)
            (Reconciler.reconciles TagBuilder.version_then_labels sample_config sample_key
               [Reconciler.ConnectionLost 0 1000; Reconciler.ConnectionLost 1000 2000]
               {[sample_key := sample_running]})).1 sample_key)
    = Reconciler.Running) by (vm_compute; reflexivity).
  split; [exact Hfrom|]. split; [exact Hto|].
  destruct (repair_count_monotone_then_reset TagBuilder.version_then_labels
              sample_config sample_key (Reconciler.Established 8%nat)
              (Reconciler.reconciles TagBuilder.version_then_labels sample_config
                 sample_key
                 [Reconciler.ConnectionLost 0 1000; Reconciler.ConnectionLost 1000 2000]
                 {[sample_key := sample_running]}))
    as (Hreset & _).
  exact (Hreset Hto Hfrom).
Defined.

(** ** Repair Scheduler *)

Section repair_scheduler.
Import RepairScheduler.
Local Open Scope Q_scope.







(** The scenario of the specification: base delay 1, jitter 0.1, three steps.
    The second attempt may wait 2.2 times the base delay at most, and no
    attempt more than 4.4 times. *)
Example repair_delays :
  capped 1 3 1 == 1 ∧ capped 1 3 2 == 2 ∧ capped 1 3 3 == 4 ∧ capped 1 3 4 == 4 ∧
  ceiling 1 (1 # 10) 3 == 44 # 10.
Proof. repeat split; reflexivity. Qed.



End repair_scheduler.
(** * Further properties of the bootstrap *)

Section bootstrap_more.
Local Open Scope Z_scope.

(** Every way the [couple] command can go, one goal
    [(trace, outcome) = (tr, out) -> _] per way. *)
Ltac couple_cases version f env l Hl :=
  unfold run, main_couple, debug_block, metrics_block, controller_block,
    kubeclient, originsecrets, flag_Parse_call, netutil_LimitListener;
  destruct (logruslevel_defined (verbose f)) as [l Hl]; rewrite Hl;
  unfold_proc; split_proc; cbn -[String.app].

Ltac couple_run version f env l Hl :=
  let tr := fresh "tr" in
  let out := fresh "out" in
  let Hrun := fresh "Hrun" in
  destruct (run (main_couple version f) env) as [tr out] eqn:Hrun; simpl;
  revert tr out Hrun; couple_cases version f env l Hl.

Lemma split_on_unique {A} (P : A → bool) (l pre post : list A) (x : A) :
  l = pre ++ x :: post → P x = true →
  match split_on P l with
  | Some (k1, y, k2) =>
      forallb (λ a, negb (P a)) k2 = true → pre = k1 ∧ x = y ∧ post = k2
  | None => False
  end.
Proof.
  revert pre. induction l as [|a l IH]; intros [|b pre] Heq Hx; simpl in *; simplify_eq.
  - rewrite Hx. done.
  - destruct (P b) eqn:Hb.
    + intros Hall. rewrite forallb_app in Hall. simpl in Hall. rewrite Hx in Hall.
      rewrite andb_false_r in Hall. done.
    + specialize (IH pre eq_refl Hx).
      destruct (split_on P (pre ++ x :: post)) as [[[k1 y] k2]|]; [|done].
      intros Hall. destruct (IH Hall) as (-> & -> & ->). done.
Qed.

(** A list with one marked element splits around it in one way only: the
    parts before it agree too. *)
Lemma split_at_unique_all {A} (P : A → bool) (l1 l2 k1 k2 : list A) (x y : A) :
  forallb (λ a, negb (P a)) k1 = true → forallb (λ a, negb (P a)) k2 = true →
  P x = true → P y = true →
  l1 ++ x :: l2 = k1 ++ y :: k2 → l1 = k1 ∧ x = y ∧ l2 = k2.
Proof.
  revert k1. induction l1 as [|a l1 IH]; intros [|b k1] Hk1 Hk2 Hx Hy Heq;
    simpl in *; simplify_eq.
  - done.
  - rewrite Hx in Hk1. done.
  - rewrite forallb_app in Hk2. simpl in Hk2. rewrite Hx in Hk2.
    rewrite andb_false_r in Hk2. done.
  - apply andb_prop in Hk1 as [_ Hk1].
    match goal with H : _ ++ _ = _ ++ _ |- _ =>
      destruct (IH k1 Hk1 Hk2 Hx Hy H) as (-> & -> & ->) end.
    done.
Qed.

Lemma ordered_sorted (l : list Event) :
  ordered l = true → StronglySorted (λ a b, (phase a ≤ phase b)%nat) l.
Proof.
  intros Hl. apply Sorted_StronglySorted; [intros a b c; lia|].
  induction l as [|a [|b l] IH]; [constructor|repeat constructor|].
  simpl in Hl. apply andb_prop in Hl as [Hab Hl].
  constructor; [by apply IH|]. constructor. by apply Nat.leb_le.
Qed.

Lemma quiet_no_fatal (init : list Event) :
  forallb quiet init = true → forallb (λ a, negb (is_fatal a)) init = true.
Proof.
  rewrite !forallb_forall. intros Hall a Ha. specialize (Hall a Ha).
  unfold quiet in Hall. destruct (is_fatal a); [|done].
  by rewrite andb_false_r in Hall.
Qed.

(** A trace without [EvFatalf] does not split around one. *)
Lemma no_fatal_no_split (tr pre post : list Event) msg :
  forallb (λ a, negb (is_fatal a)) tr = true → tr ≠ pre ++ EvFatalf msg :: post.
Proof.
  intros Hall ->. rewrite forallb_app in Hall. simpl in Hall.
  by rewrite andb_false_r in Hall.
Qed.

Example strconv_Itoa_negative : strconv_Itoa (-12) = "-12".
Proof. reflexivity. Qed.

(** X1: the level [logruslevel] returns has the numeric value of the verbosity
    clamped to the range from 0 to 5; so a higher verbosity never gives a
    lower level, [TraceLevel] is never returned, and the level reaches
    [FatalLevel] exactly from verbosity 1 on. *)
Theorem logruslevel_clamps :
  (∀ v, ∃ l, logruslevel v = Some l ∧ Level_value l = Z.max 0 (Z.min v 5)) ∧
  (∀ v w l l', v ≤ w → logruslevel v = Some l → logruslevel w = Some l' →
     Level_value l ≤ Level_value l') ∧
  (∀ v, logruslevel v ≠ Some TraceLevel) ∧
  (∀ v l, logruslevel v = Some l → (Level_value FatalLevel ≤ Level_value l ↔ 1 ≤ v)).
Proof.
  assert (Hclamp : ∀ v, ∃ l, logruslevel v = Some l
                             ∧ Level_value l = Z.max 0 (Z.min v 5)).
  { intros v. unfold logruslevel.
    destruct (0 <=? v) eqn:H0; destruct (v <=? 5) eqn:H5; simpl.
    - assert (v = 0 ∨ v = 1 ∨ v = 2 ∨ v = 3 ∨ v = 4 ∨ v = 5) as Hv by lia.
      destruct Hv as [->|[->|[->|[->|[->| ->]]]]]; eexists; split; reflexivity.
    - destruct (5 <? v) eqn:H5'; [|lia]. eexists. split; [done|]. simpl. lia.
    - destruct (5 <? v) eqn:H5'; [lia|]. eexists. split; [done|]. simpl. lia.
    - lia. }
  split; [exact Hclamp|]. split; [|split].
  - intros v w l l' Hvw Hl Hl'.
    destruct (Hclamp v) as (l0 & Hl0 & Hr). destruct (Hclamp w) as (l1 & Hl1 & Hr').
    simplify_eq. lia.
  - intros v Hv. destruct (Hclamp v) as (l0 & Hl0 & Hr). simplify_eq. simpl in Hr. lia.
  - intros v l Hl. destruct (Hclamp v) as (l0 & Hl0 & Hr). simplify_eq. simpl. lia.
Qed.

(** X2: [kubeclient] always returns to its caller.  When the configuration
    source fails it returns that very error after this one call, without
    calling [NewForConfig]; it returns a clientset only when the source gave a
    configuration and [NewForConfig] succeeded on it, every call having
    succeeded; and it returns an error only when the last call it made
    failed. *)
Theorem kubeclient_errors path inclust env h :
  ∃ t, (kubeclient path inclust env h).1 = h ++ t ∧
    (∃ r, (kubeclient path inclust env h).2 = Ret r) ∧
    (∀ err, config_source path inclust env h = Err err →
       (kubeclient path inclust env h).2 = Ret (Err err) ∧ length t = 1%nat ∧
       ∀ cfg ok, EvNewForConfig cfg ok ∉ t) ∧
    (∀ c, (kubeclient path inclust env h).2 = Ret (Ok c) →
       ∃ cfg, config_source path inclust env h = Ok cfg ∧
              EvNewForConfig cfg true ∈ t ∧
              Forall (λ e, startup_failure e = false) t) ∧
    (∀ err, (kubeclient path inclust env h).2 = Ret (Err err) →
       ∃ e, last t = Some e ∧ startup_failure e = true).
Proof.
  exists (drop (length h) (kubeclient path inclust env h).1).
  unfold kubeclient, config_source. unfold_proc.
  destruct (negb (String.eqb path "") && negb inclust);
    [destruct (clientcmd_BuildConfigFromFlags env h "" path) as [cfg0|err0] eqn:Hsrc
    |destruct (rest_InClusterConfig env h) as [cfg0|err0] eqn:Hsrc]; simpl.
  all: rewrite <- ?(assoc_L (++)), drop_app_length; simpl.
  all: split; [done|]; split; [eauto|]; split; [|split].
  all: try (intros ? [=]; fail).
  all: try (intros ? [= <-]; split; [done|]; split; [done|];
            intros ? ? Hin; in_trace Hin; simplify_eq; fail).
  all: try (intros c [= Hc]; exists cfg0; split; [done|]; rewrite Hc; simpl;
            split; [in_list|repeat constructor]; fail).
  all: intros err [= Herr]; eexists; split; [reflexivity|];
       simpl; rewrite ?Herr; done.
Qed.

(** X3: a run of the [couple] command ends in one of four ways: it returns;
    it exits with status 1; [flag.Parse] ends the process with the status it
    chose; or [netutil.LimitListener] panics, which needs a negative
    [--connection-limit] and happens right after a listener was bound.  The
    trace ends with a [log.Fatalf] exactly when [flag.Parse] returned and the
    process exits with status 1, and nothing ever follows a [log.Fatalf], so
    a run calls it at most once.  With a connection limit that is not
    negative a run never panics. *)
Theorem couple_exit_status version f env :
  ((run (main_couple version f) env).2 = Ret ()
   ∨ (run (main_couple version f) env).2 = Exit 1
   ∨ (∃ status,
        flag_Parse env [EvFlagSet "logtostderr" "true";
                        EvFlagSet "v" (strconv_Itoa (verbose f))] = Some status
        ∧ (run (main_couple version f) env).1
          = [EvFlagSet "logtostderr" "true"; EvFlagSet "v" (strconv_Itoa (verbose f));
             EvFlagParse (Some status)]
        ∧ (run (main_couple version f) env).2 = Exit status)
   ∨ (connlimit f < 0
      ∧ (∃ pre a, (run (main_couple version f) env).1 = pre ++ [EvListen "tcp" a true])
      ∧ (run (main_couple version f) env).2 = Panic)) ∧
  ((∃ pre msg, (run (main_couple version f) env).1 = pre ++ [EvFatalf msg])
   ↔ (run (main_couple version f) env).2 = Exit 1
     ∧ EvFlagParse None ∈ (run (main_couple version f) env).1) ∧
  (∀ pre msg post,
     (run (main_couple version f) env).1 = pre ++ EvFatalf msg :: post → post = []) ∧
  (0 ≤ connlimit f → (run (main_couple version f) env).2 ≠ Panic).
Proof.
  pose proof (main_couple_shape version f env) as Hs.
  destruct (run (main_couple version f) env) as [tr out]. simpl in *.
  destruct Hs as [status Hst -> ->|init a Hinit Hp Hneg -> ->
                 |init e0 msg0 Hinit Hp He0 Hrep Hl -> ->|init g0 Hinit Hp Hg0 -> ->
                 |init g0 err Hinit Hp Hg0 Hl -> ->].
  - split; [right; right; left; by eauto|]. split; [|split; [|done]].
    + split.
      * intros (pre & msg & Heq). by apply no_fatal_no_split in Heq.
      * intros [_ Hin]. in_trace Hin; discriminate.
    + intros pre msg post Heq. by apply no_fatal_no_split in Heq.
  - assert (Hnone : ∀ pre msg post,
              init ++ [EvListen "tcp" a true] ≠ pre ++ EvFatalf msg :: post).
    { intros pre msg post. apply no_fatal_no_split.
      by rewrite forallb_app, (quiet_no_fatal _ Hinit). }
    split; [right; right; right; by eauto|]. split; [|split; [|lia]].
    + split; [|by intros [? _]]. intros (pre & msg & Heq). by apply Hnone in Heq.
    + intros pre msg post Heq. by apply Hnone in Heq.
  - assert (He0' : is_fatal e0 = false) by (destruct e0; done).
    split; [by right; left|]. split; [|split; [|done]].
    + split.
      * intros _. split; [done|]. apply elem_of_app. by left.
      * intros _. exists (init ++ [e0]), msg0. by rewrite <- (assoc_L (++)).
    + intros pre msg post Heq. symmetry in Heq.
      replace (init ++ [e0; EvFatalf msg0])
        with ((init ++ [e0]) ++ EvFatalf msg0 :: []) in Heq
        by (by rewrite <- (assoc_L (++))).
      apply (split_at_unique is_fatal pre post (init ++ [e0]) []
               (EvFatalf msg) (EvFatalf msg0)); [|done|done|done|exact Heq].
      rewrite forallb_app, (quiet_no_fatal _ Hinit). simpl. by rewrite He0'.
  - assert (Hnone : ∀ pre msg post, init ++ [EvRun g0] ≠ pre ++ EvFatalf msg :: post).
    { intros pre msg post. apply no_fatal_no_split.
      by rewrite forallb_app, (quiet_no_fatal _ Hinit). }
    split; [by left|]. split; [|split; [|done]].
    + split; [|by intros [? _]]. intros (pre & msg & Heq). by apply Hnone in Heq.
    + intros pre msg post Heq. by apply Hnone in Heq.
  - split; [by right; left|]. split; [|split; [|done]].
    + split.
      * intros _. split; [done|]. apply elem_of_app. by left.
      * intros _. exists (init ++ [EvRun g0]), ("received fatal error, err=" +:+ err +:+ LF).
        by rewrite <- (assoc_L (++)).
    + intros pre msg post Heq. symmetry in Heq.
      replace (init ++ [EvRun g0; EvFatalf ("received fatal error, err=" +:+ err +:+ LF)])
        with ((init ++ [EvRun g0])
                ++ EvFatalf ("received fatal error, err=" +:+ err +:+ LF) :: []) in Heq
        by (by rewrite <- (assoc_L (++))).
      apply (split_at_unique is_fatal pre post (init ++ [EvRun g0]) []
               (EvFatalf msg) (EvFatalf ("received fatal error, err=" +:+ err +:+ LF)));
        [|done|done|done|exact Heq].
      by rewrite forallb_app, (quiet_no_fatal _ Hinit).
Qed.

(** X4: once the run group has been started, what [g.Run] returns decides the
    end of the process: on a nil error nothing more happens, nothing more is
    written and [main] returns; on an error the process calls [log.Fatalf]
    with "received fatal error, err=", the error and a line feed, and exits
    with status 1; the standard logger writes that message exactly when the
    verbosity is at least 1. *)
Theorem run_group_decides version f env tr out :
  run (main_couple version f) env = (tr, out) →
  ∀ pre g post, tr = pre ++ EvRun g :: post →
    match run_Group_Run env pre g with
    | None => post = [] ∧ out = Ret () ∧ written tr = written pre
    | Some err =>
        post = [EvFatalf ("received fatal error, err=" +:+ err +:+ LF)] ∧ out = Exit 1
        ∧ written tr
          = written pre
            ++ (if 1 <=? verbose f
                then ["received fatal error, err=" +:+ err +:+ LF] else [])
    end.
Proof.
  intros Hrun pre g post Heq.
  pose proof (main_couple_shape version f env) as Hs.
  rewrite Hrun in Hs. simpl in Hs.
  destruct Hs as [status Hst -> ->|init a Hinit Hp Hneg -> ->
                 |init e0 msg0 Hinit Hp He0 Hrep Hl -> ->|init g0 Hinit Hp Hg0 -> ->
                 |init g0 err Hinit Hp Hg0 Hl -> ->].
  - by apply no_run_no_split in Heq.
  - apply no_run_no_split in Heq; [done|].
    by rewrite forallb_app, (quiet_no_run _ Hinit).
  - apply no_run_no_split in Heq; [done|].
    rewrite forallb_app, (quiet_no_run _ Hinit). simpl.
    destruct e0; try discriminate He0; done.
  - symmetry in Heq.
    apply (split_at_unique_all is_run) in Heq as (-> & [= ->] & ->);
      [|by apply quiet_no_run|done..].
    rewrite Hg0. split; [done|]. split; [done|].
    unfold written. rewrite written_from_app. simpl. by rewrite (right_id_L [] (++)).
  - symmetry in Heq.
    apply (split_at_unique_all is_run) in Heq as (-> & [= ->] & ->);
      [|by apply quiet_no_run|done..].
    rewrite Hg0. split; [done|]. split; [done|].
    apply written_fatal; auto.
Qed.

Lemma run_group_decides_witness :
  run (main_couple "UNKNOWN" sample_flags) env_interrupted
  = ((sample_setup ++ [EvNewController sample_options])
       ++ EvRun sample_actors
       :: [EvFatalf ("received fatal error, err=context canceled" +:+ LF)],
     Exit 1)
  ∧ [EvFatalf ("received fatal error, err=context canceled" +:+ LF)]
    = [EvFatalf ("received fatal error, err=" +:+ "context canceled" +:+ LF)]
  ∧ (Exit 1 : Outcome ()) = Exit 1
  ∧ written ((sample_setup ++ [EvNewController sample_options])
               ++ EvRun sample_actors
               :: [EvFatalf ("received fatal error, err=context canceled" +:+ LF)])
    = written (sample_setup ++ [EvNewController sample_options])
      ++ (if 1 <=? verbose sample_flags
          then ["received fatal error, err=" +:+ "context canceled" +:+ LF] else []).
Proof.
  split; [reflexivity|].
  exact (run_group_decides "UNKNOWN" sample_flags env_interrupted _ _ eq_refl
           (sample_setup ++ [EvNewController sample_options]) sample_actors
           [EvFatalf ("received fatal error, err=context canceled" +:+ LF)] eq_refl).
Defined.

(** X5: the run group [main] starts holds the signal handler, then the
    profiling server exactly when [--debug-enable] is set, then the metrics
    server exactly when [--metrics-enable] is set, then the controller that
    was built, both servers limited to [--connection-limit], which is not
    negative when a server is there; and [net.Listen] is only ever called on
    ["tcp"] for the address of an enabled endpoint. *)
Theorem run_group_actors version f env :
  (∀ g, EvRun g ∈ (run (main_couple version f) env).1 →
     (∃ dl ml o,
       g = SignalActor
           :: (if debugenable f then [DebugServer dl (connlimit f)] else [])
           ++ (if metricsenable f then [MetricsServer ml (connlimit f)] else [])
           ++ [ControllerActor o]
       ∧ EvNewController o ∈ (run (main_couple version f) env).1)
     ∧ (debugenable f = true ∨ metricsenable f = true → 0 ≤ connlimit f)) ∧
  (∀ n a ok, EvListen n a ok ∈ (run (main_couple version f) env).1 →
     n = "tcp" ∧ ((debugenable f = true ∧ a = debugaddr f)
                  ∨ (metricsenable f = true ∧ a = metricsaddr f))).
Proof.
  couple_run version f env l Hl.
  all: intros tr out [= <- <-]; split.
  all: try (intros ? Hin; in_trace Hin; simplify_eq;
            (split; [eexists _, _, _; (split; [reflexivity|in_list])
                    |intros [?|?]; first [congruence | by apply Z.ltb_ge]])).
  all: try (intros ? ? ? Hin; in_trace Hin; simplify_eq; (split; [done|auto])).
  Unshelve. all: exact 0%nat.
Qed.

(** X6: a run starts with [flag.Set] of [logtostderr] to [true], [flag.Set] of
    [v] to the verbosity in decimal, whatever these two calls return, and
    [flag.Parse].  When [flag.Parse] ends the process nothing else happens:
    no logger is set.  Otherwise the
    standard logger is set to [logruslevel] of the verbosity next; the only
    other level ever set is the same level on the transport logger, and that
    happens exactly when [--transport-log-enable] is set. *)
Theorem couple_levels version f env :
  ∃ t, (run (main_couple version f) env).1
       = EvFlagSet "logtostderr" "true" :: EvFlagSet "v" (strconv_Itoa (verbose f))
         :: EvFlagParse (flag_Parse env [EvFlagSet "logtostderr" "true";
                                         EvFlagSet "v" (strconv_Itoa (verbose f))])
         :: t ∧
    match flag_Parse env [EvFlagSet "logtostderr" "true";
                          EvFlagSet "v" (strconv_Itoa (verbose f))] with
    | Some status => t = [] ∧ (run (main_couple version f) env).2 = Exit status
    | None =>
        ∃ l t', logruslevel (verbose f) = Some l ∧
          t = EvSetLevel StandardLogger l :: t' ∧
          (∀ lg l', EvSetLevel lg l' ∈ t' → lg = TransportLogger ∧ l' = l) ∧
          (transportlogenable f = true ↔ EvSetLevel TransportLogger l ∈ t')
    end.
Proof.
  couple_run version f env l Hl.
  all: intros tr out [= <- <-].
  all: eexists; split; [reflexivity|]; try done.
  all: eexists _, _; split; [reflexivity|]; split; [reflexivity|].
  all: split; [intros ? ? Hin; in_trace Hin; simplify_eq; done|].
  all: split; [intros; try done; in_list
              |intros Hin; try done; in_trace Hin; simplify_eq; done].
Qed.

(** X7: whenever the controller is built, its options are the flags of the
    command line, a clientset has been built before, the four setters of the
    engine ([EnableMetrics] with five seconds, [SetRepairBackoff],
    [SetTagLimit], [SetVersion], with the flags' values) are the calls just
    before it, and the next thing that happens is the start of a run group
    that holds this controller. *)
Theorem couple_controller version f env tr out :
  run (main_couple version f) env = (tr, out) →
  ∀ pre o post, tr = pre ++ EvNewController o :: post →
    (opt_IngressClass o = ingressclass f ∧ opt_Secret o = originsecret f ∧
     opt_ResyncPeriod o = resyncperiod f ∧ opt_WatchNamespace o = watchNamespace f ∧
     opt_Workers o = workers f) ∧
    (∃ cfg, EvNewForConfig cfg true ∈ pre) ∧
    (∃ pre', pre = pre' ++ [EvEnableMetrics 5000000000;
                            EvSetRepairBackoff (repairdelay f) (repairjitter f)
                              (repairsteps f);
                            EvSetTagLimit (taglimit f); EvSetVersion version]) ∧
    (∃ g, post = EvRun g :: drop 1 post ∧ ControllerActor o ∈ g).
Proof.
  revert tr out. couple_cases version f env l Hl.
  all: intros tr out [= <- <-] pre o post Heq.
  all: pose proof (split_on_unique is_controller _ _ _ _ Heq eq_refl) as Hs;
       cbn -[String.app] in Hs.
  all: try (destruct Hs; fail).
  all: destruct (Hs eq_refl) as (-> & [= ->] & ->); simpl.
  all: split; [done|]; split; [eexists; in_list|]; split;
       [|eexists; split; [reflexivity|in_list]].
  all: match goal with
       | |- ex (λ pre', ?tr = @?r pre') => exists (take (length tr - 4) tr); reflexivity
       end.
Qed.

Lemma couple_controller_witness :
  run (main_couple "UNKNOWN" sample_flags) env_ok
  = (sample_setup ++ EvNewController sample_options :: [EvRun sample_actors], Ret ())
  ∧ opt_Workers sample_options = workers sample_flags
  ∧ ∃ pre', sample_setup
            = pre' ++ [EvEnableMetrics 5000000000;
                       EvSetRepairBackoff (repairdelay sample_flags)
                         (repairjitter sample_flags) (repairsteps sample_flags);
                       EvSetTagLimit (taglimit sample_flags); EvSetVersion "UNKNOWN"].
Proof.
  split; [reflexivity|].
  destruct (couple_controller "UNKNOWN" sample_flags env_ok _ _ eq_refl
              sample_setup sample_options [EvRun sample_actors] eq_refl)
    as ((_ & _ & _ & _ & Hworkers) & _ & Hsetters & _).
  split; [exact Hworkers|exact Hsetters].
Defined.

(** X8: the origin secret configuration is read at most once in a run, from
    the path of [--origin-secret-config], which is then not empty, and only
    after the Kubernetes clientset has been built. *)
Theorem couple_secrets_file version f env :
  ∀ pre p ok post,
    (run (main_couple version f) env).1 = pre ++ EvParseOriginSecretsFile p ok :: post →
    p = originconfig f ∧ p ≠ "" ∧
    (∃ cfg, EvNewForConfig cfg true ∈ pre) ∧
    (∀ e, e ∈ pre ++ post → reads_secret_file e = false).
Proof.
  couple_run version f env l Hl.
  all: intros tr out [= <- <-] pre p ok post Heq.
  all: pose proof (split_on_unique reads_secret_file _ _ _ _ Heq eq_refl) as Hs;
       cbn -[String.app] in Hs.
  all: try (destruct Hs; fail).
  all: destruct (Hs eq_refl) as (-> & [= -> ->] & ->); simpl.
  all: split; [done|]; split;
       [intros Hp;
        match goal with H : (0 <? Z.of_nat (String.length _)) = true |- _ =>
          rewrite Hp in H; discriminate H end|].
  all: split; [eexists; in_list|].
  all: intros ev Hev; in_trace Hev; subst; reflexivity.
Qed.

Lemma couple_secrets_file_witness :
  (run (main_couple "UNKNOWN" sample_flags_secrets) env_ok).1
  = [EvFlagSet "logtostderr" "true"; EvFlagSet "v" "5"; EvFlagParse None;
     EvSetLevel StandardLogger DebugLevel;
     EvSetLevel TransportLogger DebugLevel; EvSignalNotify;
     EvInClusterConfig true; EvNewForConfig 2%nat true]
    ++ EvParseOriginSecretsFile "/etc/argot/secrets.yaml" true
    :: [EvEnableMetrics 5000000000; EvSetRepairBackoff 1000000000 0 3;
        EvSetTagLimit 32; EvSetVersion "UNKNOWN";
        EvNewController
          {| opt_client := 2%nat; opt_IngressClass := "argo-tunnel";
             opt_SecretGroups := OriginSecrets_zero;
             opt_Secret := {| Namespace := "edge"; Name := "origin-cert" |};
             opt_ResyncPeriod := 300000000000; opt_WatchNamespace := "";
             opt_Workers := 2 |};
        EvRun
          [SignalActor;
           ControllerActor
             {| opt_client := 2%nat; opt_IngressClass := "argo-tunnel";
                opt_SecretGroups := OriginSecrets_zero;
                opt_Secret := {| Namespace := "edge"; Name := "origin-cert" |};
                opt_ResyncPeriod := 300000000000; opt_WatchNamespace := "";
                opt_Workers := 2 |}]]
  ∧ "/etc/argot/secrets.yaml" = originconfig sample_flags_secrets
  ∧ "/etc/argot/secrets.yaml" ≠ "".
Proof.
  split; [reflexivity|].
  destruct (couple_secrets_file "UNKNOWN" sample_flags_secrets env_ok
              [EvFlagSet "logtostderr" "true"; EvFlagSet "v" "5"; EvFlagParse None;
               EvSetLevel StandardLogger DebugLevel;
               EvSetLevel TransportLogger DebugLevel; EvSignalNotify;
               EvInClusterConfig true; EvNewForConfig 2%nat true]
              "/etc/argot/secrets.yaml" true _ eq_refl)
    as (Hpath & Hne & _).
  split; [exact Hpath|exact Hne].
Defined.

(** X9: the events of a run follow the order of the statements of [main]
    (verbosity, loggers, signal handler, listeners, configuration source,
    clientset, origin secrets, setters, controller, run group, fatal message);
    so when a listener cannot be bound the Kubernetes client is never asked
    for, and when a call that builds the client fails no origin secret file is
    read and no controller is built. *)
Theorem couple_order version f env :
  StronglySorted (λ a b, (phase a ≤ phase b)%nat) (run (main_couple version f) env).1 ∧
  (∀ n a, EvListen n a false ∈ (run (main_couple version f) env).1 →
     ∀ e, e ∈ (run (main_couple version f) env).1 →
       kubernetes_call e = false ∧ reads_secret_file e = false
       ∧ is_controller e = false) ∧
  (∀ e, e ∈ (run (main_couple version f) env).1 → kubernetes_call e = true →
     startup_failure e = true →
     ∀ e', e' ∈ (run (main_couple version f) env).1 →
       reads_secret_file e' = false ∧ is_controller e' = false).
Proof.
  couple_run version f env l Hl.
  all: intros tr out [= <- <-]; split; [apply ordered_sorted; reflexivity|].
  all: split.
  all: try (intros ? ? Hin; in_trace Hin; simplify_eq;
            intros ev Hev; in_trace Hev; subst; done).
  all: intros ev Hev Hk Hf; in_trace Hev; subst; try discriminate Hk;
       try discriminate Hf; intros ev' Hev'; in_trace Hev'; subst; done.
Qed.

End bootstrap_more.
